(** * Fixed-window rate limiter (middleware/rateLimiter.js)

    A shallow embedding of the [RateLimiter] class and the properties of
    its admission logic.

    Modelling choices, all read off the source:
    - JavaScript numbers that the class manipulates (counts, limits,
      millisecond timestamps) are integers; they are modelled as [Z].
    - [this.storage] is a [Map] from strings to [{count, windowStart}]
      objects; it is modelled as [gmap string WindowState].  The only
      reference to a stored object outside the map is the local
      [windowData] of [checkLimit], which is written back before the
      method returns, so value semantics loses nothing.
    - [this.limits] and [this.windowSize] are read by every method and
      written by none: they are the [Config] record, a Section variable.
    - [Date.now()] is the argument [now] of each method that reads the
      clock.
    - Methods are written in a small state monad over the store, so that
      a method that does not write is seen not to write. *)

From Stdlib Require Import ZArith String List Lia Permutation.
From stdpp Require Import gmap strings list fin_maps pretty.

Local Open Scope string_scope.
Local Open Scope Z_scope.

(** ** JavaScript values that reach the limiter *)

(** [user.id]: [null]/[undefined], a number (the demo accounts have ids
    1, 2, ...) or a string. *)
Inductive JsId : Type :=
  | IdNull : JsId
  | IdNum (n : Z) : JsId
  | IdStr (s : string) : JsId.

(** Truthiness of [user.id] in [if (... && user.id)]. *)
Definition truthy_id (i : JsId) : bool :=
  match i with
  | IdNull => false
  | IdNum n => negb (n =? 0)
  | IdStr s => negb (String.eqb s "")
  end.

(** The text that a template literal [`${user.id}`] produces. *)
Definition id_to_string (i : JsId) : string :=
  match i with
  | IdNull => "null"
  | IdNum n => pretty n
  | IdStr s => s
  end.

(** [req.user]: an object with a [type] (absent: [None]) and an [id].
    The argument [user] of the methods is [option User]; [None] is
    [null]/[undefined]. *)
Record User : Type := mkUser {
  user_type : option string;
  user_id : JsId
}.

(** [x || d] on an optional string: [undefined] and [''] are falsy. *)
Definition str_or (o : option string) (d : string) : string :=
  match o with
  | Some s => if String.eqb s "" then d else s
  | None => d
  end.

(** [x || d] on an optional number: [undefined], [NaN] and [0] are
    falsy. *)
Definition num_or (o : option Z) (d : Z) : Z :=
  match o with
  | Some n => if n =? 0 then d else n
  | None => d
  end.

(** ** The instance's fields *)

Record WindowState : Type := mkWindow {
  count : Z;
  windowStart : Z
}.

(** [this.limits = { guest: ..., free: ..., premium: ... }] *)
Record Limits : Type := mkLimits {
  guest : Z;
  free : Z;
  premium : Z
}.

(** [this.limits[userType]]: the three own properties of the object
    literal; any other tier name is [undefined], except for the names
    that the object inherits from [Object.prototype] ([inherited_name]
    below), where the code finds a function or an object and not a
    number.  The model does not cover those names: a statement about
    every identity that is not relative to the numeric value of the
    limit carries the hypothesis [inherited_name (userTypeOf user) =
    false]. *)
Definition limits_lookup (l : Limits) (t : string) : option Z :=
  if String.eqb t "guest" then Some (guest l)
  else if String.eqb t "free" then Some (free l)
  else if String.eqb t "premium" then Some (premium l)
  else None.

(** The property names that every object literal inherits from
    [Object.prototype]. *)
Definition inherited_name (t : string) : bool :=
  existsb (String.eqb t)
    ["constructor"; "__defineGetter__"; "__defineSetter__"; "hasOwnProperty";
     "__lookupGetter__"; "__lookupSetter__"; "isPrototypeOf";
     "propertyIsEnumerable"; "toString"; "valueOf"; "__proto__";
     "toLocaleString"].

Record Config : Type := mkConfig {
  limits : Limits;
  windowSize : Z
}.

(** [process.env] after [parseInt]: [None] is [NaN] (variable unset or
    not a number). *)
Record Env : Type := mkEnv {
  GUEST_LIMIT : option Z;
  FREE_LIMIT : option Z;
  PREMIUM_LIMIT : option Z;
  WINDOW_SIZE_HOURS : option Z
}.

(** The constructor, without the timer. *)
Definition RateLimiter_new (env : Env) : Config :=
  {| limits := {| guest := num_or (GUEST_LIMIT env) 3;
                  free := num_or (FREE_LIMIT env) 10;
                  premium := num_or (PREMIUM_LIMIT env) 50 |};
     windowSize := num_or (WINDOW_SIZE_HOURS env) 1 * 60 * 60 * 1000 |}.

Definition default_env : Env :=
  {| GUEST_LIMIT := None; FREE_LIMIT := None; PREMIUM_LIMIT := None;
     WINDOW_SIZE_HOURS := None |}.

(** ** A state monad over the store *)

Definition M (A : Type) : Type :=
  gmap string WindowState → A * gmap string WindowState.

#[export] Instance M_ret : MRet M := λ A a s, (a, s).

#[export] Instance M_bind : MBind M :=
  λ A B f m s, let (a, s') := m s in f a s'.

Definition ret {A} (a : A) : M A := mret a.

(** [this.storage.get(key)] *)
Definition storage_get (key : string) : M (option WindowState) :=
  λ s, (s !! key, s).

(** [this.storage.set(key, value)] *)
Definition storage_set (key : string) (v : WindowState) : M unit :=
  λ s, (tt, <[key := v]> s).

(** [this.storage.delete(key)] *)
Definition storage_delete (key : string) : M unit :=
  λ s, (tt, delete key s).

(** [this.storage.entries()] *)
Definition storage_entries : M (list (string * WindowState)) :=
  λ s, (map_to_list s, s).

(** [list.forEach(f)] for an effectful [f]. *)
Fixpoint forEach {A} (l : list A) (f : A → M unit) : M unit :=
  match l with
  | [] => ret tt
  | x :: l' => f x ;; forEach l' f
  end.

(** [mapM]: run one effectful call per element, collecting results. *)
Fixpoint mapM {A B} (f : A → M B) (l : list A) : M (list B) :=
  match l with
  | [] => ret []
  | x :: l' => r ← f x; rs ← mapM f l'; ret (r :: rs)
  end.

(** ** Results *)

Record CheckResult : Type := mkCheck {
  allowed : bool;
  remaining : Z;
  total : Z;
  resetTime : Z;
  userType : string
}.

Record StatusResult : Type := mkStatus {
  st_remaining : Z;
  st_total : Z;
  st_resetTime : Z;
  st_userType : string
}.

Record DebugEntry : Type := mkDebug {
  dbg_count : Z;
  dbg_windowStart : Z;
  timeRemaining : Z
}.

(** ** The methods *)

Section RateLimiter.

Variable this : Config.

(** [getKey(user, ip)] *)
Definition getKey (user : option User) (ip : string) : string :=
  match user with
  | Some u =>
      if negb (bool_decide (user_type u = Some "guest")) && truthy_id (user_id u)
      then "user:" ++ id_to_string (user_id u)
      else "ip:" ++ ip
  | None => "ip:" ++ ip
  end.

(** [user?.type || 'guest'] *)
Definition userTypeOf (user : option User) : string :=
  str_or (user ≫= user_type) "guest".

(** [getLimit(user)] *)
Definition getLimit (user : option User) : Z :=
  num_or (limits_lookup (limits this) (userTypeOf user)) (guest (limits this)).

(** [(now - windowData.windowStart) >= this.windowSize] *)
Definition expired (now : Z) (w : WindowState) : bool :=
  bool_decide (windowSize this ≤ now - windowStart w).

(** The key has no entry, or its window has expired: the condition of
    the first [if] of [checkLimit] and of [getStatus]. *)
Definition starts_window (now : Z) (o : option WindowState) : bool :=
  match o with
  | Some w => expired now w
  | None => true
  end.

(** [checkLimit(user, ip)] *)
Definition checkLimit (user : option User) (ip : string) (now : Z)
  : M CheckResult :=
  let key := getKey user ip in
  let limit := getLimit user in
  stored ← storage_get key;
  windowData ←
    (match stored with
     | Some w =>
         if expired now w
         then (let w0 := {| count := 0; windowStart := now |} in
               storage_set key w0 ;; ret w0)
         else ret w
     | None =>
         let w0 := {| count := 0; windowStart := now |} in
         storage_set key w0 ;; ret w0
     end);
  let remaining := Z.max 0 (limit - count windowData) in
  let allowed := bool_decide (count windowData < limit) in
  windowData ←
    (if allowed
     then (let w1 := {| count := count windowData + 1;
                        windowStart := windowStart windowData |} in
           storage_set key w1 ;; ret w1)
     else ret windowData);
  ret {| allowed := allowed;
         remaining := if allowed then remaining - 1 else remaining;
         total := limit;
         resetTime := windowStart windowData + windowSize this;
         userType := userTypeOf user |}.

(** [getStatus(user, ip)] *)
Definition getStatus (user : option User) (ip : string) (now : Z)
  : M StatusResult :=
  let key := getKey user ip in
  let limit := getLimit user in
  let fresh := {| st_remaining := limit;
                  st_total := limit;
                  st_resetTime := now + windowSize this;
                  st_userType := userTypeOf user |} in
  stored ← storage_get key;
  match stored with
  | None => ret fresh
  | Some w =>
      if expired now w then ret fresh
      else ret {| st_remaining := Z.max 0 (limit - count w);
                  st_total := limit;
                  st_resetTime := windowStart w + windowSize this;
                  st_userType := userTypeOf user |}
  end.

(** [cleanup()] *)
Definition cleanup (now : Z) : M unit :=
  entries ← storage_entries;
  let keysToDelete :=
    (filter (λ kv : string * WindowState, expired now kv.2 = true) entries).*1 in
  forEach keysToDelete storage_delete.

(** [reset(user, ip)] *)
Definition reset (user : option User) (ip : string) : M unit :=
  storage_delete (getKey user ip).

(** [getDebugInfo()]: the object [data], built one key at a time (the
    loop is taken to read one clock value). *)
Definition getDebugInfo (now : Z) : M (gmap string DebugEntry) :=
  entries ← storage_entries;
  ret (foldl (λ (data : gmap string DebugEntry) (kv : string * WindowState),
                <[kv.1 := {| dbg_count := count kv.2;
                             dbg_windowStart := windowStart kv.2;
                             timeRemaining :=
                               Z.max 0 (windowStart kv.2 + windowSize this - now) |}]>
                  data)
             ∅ entries).

End RateLimiter.

(** ** Runs of several calls *)

(** One pending call of [checkLimit] or [getStatus]: its arguments and
    the clock value it reads. *)
Definition Request : Type := option User * string * Z.

Definition requests (user : option User) (ip : string) (times : list Z)
  : list Request :=
  (λ t, (user, ip, t)) <$> times.

(** [checkLimit] once per request, in list order. *)
Definition checkAll (this : Config) (rs : list Request) : M (list CheckResult) :=
  mapM (λ r : Request, checkLimit this r.1.1 r.1.2 r.2) rs.

(** [getStatus] once per request, in list order. *)
Definition statusAll (this : Config) (rs : list Request) : M (list StatusResult) :=
  mapM (λ r : Request, getStatus this r.1.1 r.1.2 r.2) rs.

(** The public operations that touch the store. *)
Inductive Op : Type :=
  | OpCheckLimit (user : option User) (ip : string) (now : Z)
  | OpGetStatus (user : option User) (ip : string) (now : Z)
  | OpReset (user : option User) (ip : string)
  | OpCleanup (now : Z).

Definition run_op (this : Config) (o : Op) : M unit :=
  match o with
  | OpCheckLimit user ip now => checkLimit this user ip now ;; ret tt
  | OpGetStatus user ip now => getStatus this user ip now ;; ret tt
  | OpReset user ip => reset user ip
  | OpCleanup now => cleanup this now
  end.

Definition run_ops (this : Config) (ops : list Op) : M unit :=
  forEach ops (run_op this).

(** The limit in force at the last [checkLimit] or [getStatus] of the
    trace that addressed [key], if any. *)
Fixpoint last_limit (this : Config) (key : string) (ops : list Op)
  : option Z :=
  match ops with
  | [] => None
  | o :: ops' =>
      match last_limit this key ops' with
      | Some l => Some l
      | None =>
          match o with
          | OpCheckLimit user ip _ | OpGetStatus user ip _ =>
              if bool_decide (getKey user ip = key)
              then Some (getLimit this user) else None
          | _ => None
          end
      end
  end.

(** The limit that [o] uses, when [o] is a [checkLimit] on [key] that
    the store [s] admits. *)
Definition admits_on (this : Config) (key : string) (o : Op)
    (s : gmap string WindowState) : option Z :=
  match o with
  | OpCheckLimit user ip now =>
      if bool_decide (getKey user ip = key) &&
         allowed (checkLimit this user ip now s).1
      then Some (getLimit this user) else None
  | _ => None
  end.

(** The limit of the last [checkLimit] that was admitted on [key] in the
    run of [ops] from [s], if any. *)
Fixpoint last_admitted (this : Config) (key : string) (ops : list Op)
    (s : gmap string WindowState) : option Z :=
  match ops with
  | [] => None
  | o :: ops' =>
      match last_admitted this key ops' (run_op this o s).2 with
      | Some l => Some l
      | None => admits_on this key o s
      end
  end.

(** The largest limit that a [checkLimit] of the trace used on [key]
    (0 when there is none). *)
Fixpoint limit_seen (this : Config) (key : string) (ops : list Op) : Z :=
  match ops with
  | [] => 0
  | OpCheckLimit user ip _ :: ops' =>
      if bool_decide (getKey user ip = key)
      then Z.max (getLimit this user) (limit_seen this key ops')
      else limit_seen this key ops'
  | _ :: ops' => limit_seen this key ops'
  end.

(** Every stored count lies between 0 and the bound [b] gives its key. *)
Definition bounded_by (b : string → Z) (s : gmap string WindowState) : Prop :=
  map_Forall (λ k w, 0 ≤ count w ≤ b k) s.

(** Every stored count is a natural number. *)
Definition nonneg_counts (s : gmap string WindowState) : Prop :=
  map_Forall (λ _ w, 0 ≤ count w) s.

(** How many calls were admitted. *)
Definition admitted (rs : list CheckResult) : Z :=
  Z.of_nat (length (filter (λ r, allowed r = true) rs)).

(** Two [checkLimit] calls with [getStatus] calls in between, and the
    same two calls without them. *)
Definition check_status_check (this : Config) (c1 : Request)
    (qs : list Request) (c2 : Request)
  : M (CheckResult * CheckResult) :=
  r1 ← checkLimit this c1.1.1 c1.1.2 c1.2;
  statusAll this qs;;
  r2 ← checkLimit this c2.1.1 c2.1.2 c2.2;
  ret (r1, r2).

Definition check_check (this : Config) (c1 c2 : Request)
  : M (CheckResult * CheckResult) :=
  r1 ← checkLimit this c1.1.1 c1.1.2 c1.2;
  r2 ← checkLimit this c2.1.1 c2.1.2 c2.2;
  ret (r1, r2).

(** The request [c] made at time [t] falls on key [k] with limit [L]
    while the stored window [w] of that key is still open. *)
Definition hits (this : Config) (k : string) (L : Z) (w : WindowState)
    (r : Request) : Prop :=
  getKey r.1.1 r.1.2 = k ∧ getLimit this r.1.1 = L ∧
  r.2 - windowStart w < windowSize this.

#[export] Instance hits_dec this k L w r : Decision (hits this k L w r).
Proof. unfold hits. apply _. Defined.

#[export] Instance bounded_by_dec b s : Decision (bounded_by b s).
Proof. unfold bounded_by. apply _. Defined.

#[export] Instance nonneg_counts_dec s : Decision (nonneg_counts s).
Proof. unfold nonneg_counts. apply _. Defined.

(** ** Concrete instances *)

(** The limiter as the tests build it: no environment variable set. *)
Definition demo : Config := RateLimiter_new default_env.

Definition guest_user : option User := Some (mkUser (Some "guest") IdNull).
Definition free_user (n : Z) : option User := Some (mkUser (Some "free") (IdNum n)).
Definition premium_user (n : Z) : option User :=
  Some (mkUser (Some "premium") (IdNum n)).

(** The environment with [FREE_LIMIT=0] and nothing else set. *)
Definition zero_free_env : Env :=
  {| GUEST_LIMIT := None; FREE_LIMIT := Some 0; PREMIUM_LIMIT := None;
     WINDOW_SIZE_HOURS := None |}.

(** The environment with [FREE_LIMIT=-1] and nothing else set. *)
Definition negative_free_env : Env :=
  {| GUEST_LIMIT := None; FREE_LIMIT := Some (-1); PREMIUM_LIMIT := None;
     WINDOW_SIZE_HOURS := None |}.

(** A non-guest identity that carries no id. *)
Definition free_no_id : option User := Some (mkUser (Some "free") IdNull).

(** ** The Express layer

    The middleware of middleware/auth.js and middleware/rateLimiter.js
    and the routes that use the limiter.  A middleware either answers
    the request ([Send]) or hands it on ([Next]).  What lies outside the
    repository is a parameter: [jwt.verify], [jwt.sign], [bcrypt.hash],
    [bcrypt.compare]. *)

(** [new Date(ms).toISOString()], kept as the timestamp it renders
    (timestamps are taken to lie in the range that [Date] can render). *)
Inductive IsoDate : Type :=
  | ISOString (ms : Z).

(** [req.body.message]: a string, given by its UTF-16 code units, or any
    other value ([undefined], a number, an object, ...). *)
Inductive Message : Type :=
  | NotAString
  | Str (units : list N).

(** The parts of [req] that the middleware reads or writes. *)
Record Req : Type := mkReq {
  req_user : option User;
  req_ip : option string;
  req_remoteAddress : option string;
  req_forwarded : option string;
  req_authorization : option string;
  req_message : Message;
  req_rateLimit : option CheckResult
}.

Definition set_user (req : Req) (u : User) : Req :=
  {| req_user := Some u; req_ip := req_ip req;
     req_remoteAddress := req_remoteAddress req;
     req_forwarded := req_forwarded req;
     req_authorization := req_authorization req;
     req_message := req_message req; req_rateLimit := req_rateLimit req |}.

Definition set_rateLimit (req : Req) (r : CheckResult) : Req :=
  {| req_user := req_user req; req_ip := req_ip req;
     req_remoteAddress := req_remoteAddress req;
     req_forwarded := req_forwarded req;
     req_authorization := req_authorization req;
     req_message := req_message req; req_rateLimit := Some r |}.

(** The JSON bodies that the modelled handlers send. *)
Inductive Body : Type :=
  | ErrorBody (error : string)
  | TooManyBody (error : string) (remaining_requests : Z)
      (reset_time : IsoDate) (user_type : string)
  | StatusBody (remaining_requests total_requests : Z) (user_type : string)
      (reset_time : IsoDate) (reset_in_ms : Z)
  | LimitsBody (guest_limit free_limit premium_limit : Z) (window_size : string)
  | AuthBody (msg token : string) (id : Z) (username type : string).

Record Response : Type := mkResponse {
  res_status : Z;
  res_body : Body
}.

Inductive Step : Type :=
  | Next (req : Req)
  | Send (res : Response).

(** The three headers that the rate-limit middleware sets. *)
Record RateHeaders : Type := mkHeaders {
  X_RateLimit_Limit : Z;
  X_RateLimit_Remaining : Z;
  X_RateLimit_Reset : IsoDate
}.

(** [req.ip || req.connection.remoteAddress ||
     req.headers['x-forwarded-for'] || 'unknown'] *)
Definition clientIp (req : Req) : string :=
  str_or (req_ip req)
    (str_or (req_remoteAddress req) (str_or (req_forwarded req) "unknown")).

(** [c.toUpperCase()] on one character of a tier name (tier names are
    taken to be ASCII). *)
Definition toUpperCase (c : Ascii.ascii) : Ascii.ascii :=
  let n := Ascii.N_of_ascii c in
  if ((97 <=? n) && (n <=? 122))%N then Ascii.ascii_of_N (n - 32) else c.

(** [s.charAt(0).toUpperCase() + s.slice(1)] *)
Definition capitalize (s : string) : string :=
  match s with
  | EmptyString => EmptyString
  | String c s' => String (toUpperCase c) s'
  end.

(** The middleware that [createRateLimitMiddleware(rateLimiter)]
    returns. *)
Definition rateLimitMiddleware (this : Config) (req : Req) (now : Z)
  : M (RateHeaders * Step) :=
  let ip := clientIp req in
  result ← checkLimit this (req_user req) ip now;
  let headers := {| X_RateLimit_Limit := total result;
                    X_RateLimit_Remaining := remaining result;
                    X_RateLimit_Reset := ISOString (resetTime result) |} in
  if negb (allowed result)
  then ret (headers,
            Send {| res_status := 429;
                    res_body :=
                      TooManyBody
                        ("Too many requests. " ++ capitalize (userType result)
                         ++ " users can make " ++ pretty (total result)
                         ++ " requests per hour.")
                        (remaining result)
                        (ISOString (resetTime result))
                        (userType result) |})
  else ret (headers, Next (set_rateLimit req result)).

(** The code units that [String.prototype.trim] strips: WhiteSpace and
    LineTerminator of ECMAScript. *)
Definition is_white_space (c : N) : bool :=
  ((c =? 9) || (c =? 10) || (c =? 11) || (c =? 12) || (c =? 13) ||
   (c =? 32) || (c =? 160) || (c =? 5760) ||
   ((8192 <=? c) && (c <=? 8202)) ||
   (c =? 8232) || (c =? 8233) || (c =? 8239) || (c =? 8287) ||
   (c =? 12288) || (c =? 65279))%N.

Fixpoint trimStart (s : list N) : list N :=
  match s with
  | [] => []
  | c :: s' => if is_white_space c then trimStart s' else s
  end.

Definition trimEnd (s : list N) : list N := reverse (trimStart (reverse s)).

(** [message.trim()] *)
Definition trim (s : list N) : list N := trimEnd (trimStart s).

Definition message_required : Response :=
  {| res_status := 400;
     res_body := ErrorBody "Message is required and must be a non-empty string" |}.

Definition message_too_long : Response :=
  {| res_status := 400;
     res_body := ErrorBody "Message must be less than 1000 characters" |}.

(** [validateMessage] of routes/chat.js *)
Definition validateMessage (req : Req) : Step :=
  match req_message req with
  | NotAString => Send message_required
  | Str s =>
      if (length s =? 0)%nat || (length (trim s) =? 0)%nat
      then Send message_required
      else if (1000 <? length s)%nat then Send message_too_long
      else Next req
  end.

(** [s.split(' ')] *)
Fixpoint split_space (s : string) : list string :=
  match s with
  | EmptyString => [EmptyString]
  | String c s' =>
      if Ascii.eqb c Ascii.Space then EmptyString :: split_space s'
      else match split_space s' with
           | h :: t => String c h :: t
           | [] => [String c EmptyString]
           end
  end.

(** [authHeader && authHeader.split(' ')[1]], with every falsy outcome
    ([undefined], ['']) as [None]. *)
Definition bearer_token (authHeader : option string) : option string :=
  match authHeader with
  | None => None
  | Some h =>
      match split_space h !! 1%nat with
      | Some t => if String.eqb t "" then None else Some t
      | None => None
      end
  end.

Definition guest_identity : User := {| user_type := Some "guest"; user_id := IdNull |}.

Definition invalid_token : Response :=
  {| res_status := 403; res_body := ErrorBody "Invalid or expired token" |}.

(** [authenticateToken] of middleware/auth.js; [verify token] is
    [jwt.verify(token, JWT_SECRET, ...)], [None] when it reports an
    error. *)
Definition authenticateToken (verify : string → option User) (req : Req) : Step :=
  match bearer_token (req_authorization req) with
  | None => Next (set_user req guest_identity)
  | Some token =>
      match verify token with
      | None => Send invalid_token
      | Some user => Next (set_user req user)
      end
  end.

(** [POST /api/chat] up to the point where the handler is entered:
    [authenticateToken], [validateMessage], the rate-limit middleware.
    [Next req] means the handler runs on [req]. *)
Definition chat_route (verify : string → option User) (this : Config)
    (req : Req) (now : Z) : M (option RateHeaders * Step) :=
  match authenticateToken verify req with
  | Send res => ret (None, Send res)
  | Next req1 =>
      match validateMessage req1 with
      | Send res => ret (None, Send res)
      | Next req2 =>
          out ← rateLimitMiddleware this req2 now;
          ret (Some out.1, out.2)
      end
  end.

(** [GET /api/status]; [now] is the clock that [getStatus] reads and
    [now'] the later [Date.now()] of [reset_in_ms]. *)
Definition status_route (verify : string → option User) (this : Config)
    (req : Req) (now now' : Z) : M Response :=
  match authenticateToken verify req with
  | Send res => ret res
  | Next req1 =>
      status ← getStatus this (req_user req1) (clientIp req1) now;
      ret {| res_status := 200;
             res_body :=
               StatusBody (st_remaining status) (st_total status)
                 (st_userType status) (ISOString (st_resetTime status))
                 (st_resetTime status - now') |}
  end.

(** [GET /api/limits] *)
Definition limits_route (env : Env) : Response :=
  {| res_status := 200;
     res_body :=
       LimitsBody (num_or (GUEST_LIMIT env) 3) (num_or (FREE_LIMIT env) 10)
         (num_or (PREMIUM_LIMIT env) 50)
         (pretty (num_or (WINDOW_SIZE_HOURS env) 1) ++ " hour(s)") |}.

(** *** The account routes (login, register) *)

Record Account : Type := mkAccount {
  acc_id : Z;
  acc_username : string;
  acc_password : string;
  acc_type : string
}.

(** The mock user database as the module creates it. *)
Definition demo_users : list Account :=
  [ {| acc_id := 1; acc_username := "freeuser";
       acc_password := "$2a$10$/v5ls/7MOrHnOE/3o5mOou.fYMrMKQyXaDMdm1sOBfOHXWz0UvAK.";
       acc_type := "free" |};
    {| acc_id := 2; acc_username := "premiumuser";
       acc_password := "$2a$10$/v5ls/7MOrHnOE/3o5mOou.fYMrMKQyXaDMdm1sOBfOHXWz0UvAK.";
       acc_type := "premium" |} ].

(** [!x] for a field of the body that is a string when present
    ([req.body] is an object, as [express.json()] leaves it). *)
Definition missing (o : option string) : bool :=
  match o with
  | Some s => String.eqb s ""
  | None => true
  end.

(** [users.find(u => u.username === username)] *)
Definition find_user (users : list Account) (username : string) : option Account :=
  List.find (λ u, String.eqb (acc_username u) username) users.

(** [['free', 'premium'].includes(type) ? type : 'free'], after the
    default ['free'] of the destructuring. *)
Definition account_type (type : option string) : string :=
  match type with
  | Some t => if String.eqb t "free" || String.eqb t "premium" then t else "free"
  | None => "free"
  end.

Definition credentials_required : Response :=
  {| res_status := 400; res_body := ErrorBody "Username and password are required" |}.

Definition invalid_credentials : Response :=
  {| res_status := 401; res_body := ErrorBody "Invalid credentials" |}.

Section Accounts.

(** [jwt.sign({id, username, type}, JWT_SECRET, {expiresIn: '24h'})] when
    the clock reads [now]: jsonwebtoken stamps [iat] and [exp] from the
    clock, so the token depends on it.  First argument: the clock. *)
Variable sign : Z → Z → string → string → string.
(** [bcrypt.hash(password, 10)]: the hash that gets stored (bcrypt draws
    a salt; the hash is only ever handed to [compare]). *)
Variable hash : string → string.
(** [bcrypt.compare(password, stored)], [false] when it throws *)
Variable compare : string → string → bool.
(** [process.env.NODE_ENV === 'test'] *)
Variable test_env : bool.

(** [POST /api/auth/login]; [now] is the clock that [jwt.sign] reads. *)
Definition login (now : Z) (users : list Account)
    (username password : option string) : Response :=
  if missing username || missing password then credentials_required
  else
    let username := default "" username in
    let password := default "" password in
    match find_user users username with
    | None => invalid_credentials
    | Some user =>
        let isValidPassword := compare password (acc_password user) in
        let isValidPassword :=
          if negb isValidPassword && test_env
          then String.eqb password "password123" else isValidPassword in
        if negb isValidPassword then invalid_credentials
        else {| res_status := 200;
                res_body :=
                  AuthBody "Login successful"
                    (sign now (acc_id user) (acc_username user) (acc_type user))
                    (acc_id user) (acc_username user) (acc_type user) |}
    end.

(** [POST /api/auth/register] runs in two turns of the event loop, with
    [await bcrypt.hash] between them.  First turn: the checks, which
    answer at once ([Some]) or let the request go on ([None]). *)
Definition register_check (users : list Account)
    (username password : option string) : option Response :=
  if missing username || missing password then Some credentials_required
  else
    match find_user users (default "" username) with
    | Some _ =>
        Some {| res_status := 409; res_body := ErrorBody "User already exists" |}
    | None => None
    end.

(** Second turn, on the user list as it is by then: build the account,
    push it, answer 201; [now] is the clock that [jwt.sign] reads. *)
Definition register_commit (now : Z) (users : list Account)
    (username password type : option string) : Response * list Account :=
  let username := default "" username in
  let password := default "" password in
  let newUser := {| acc_id := Z.of_nat (length users) + 1;
                    acc_username := username;
                    acc_password := hash password;
                    acc_type := account_type type |} in
  ({| res_status := 201;
      res_body :=
        AuthBody "User registered successfully"
          (sign now (acc_id newUser) (acc_username newUser) (acc_type newUser))
          (acc_id newUser) (acc_username newUser) (acc_type newUser) |},
   (users ++ [newUser])%list).

(** A registration during which no other request changes the user list:
    the response and the user list after it. *)
Definition register (now : Z) (users : list Account)
    (username password type : option string) : Response * list Account :=
  match register_check users username password with
  | Some res => (res, users)
  | None => register_commit now users username password type
  end.

(** The user lists that registrations can produce when their turns
    interleave: a request that passed its checks on an earlier list
    [users0] is stored on the list [users] that has grown from it. *)
Inductive registered : list Account → Prop :=
  | registered_init : registered demo_users
  | registered_commit now users0 users username password type :
      registered users0 →
      registered users →
      users0 `prefix_of` users →
      register_check users0 username password = None →
      registered (register_commit now users username password type).2.

End Accounts.

(** The user list after a series of registration requests, each with
    its user name, password, tier and the clock value of its answer. *)
Fixpoint register_all (sign : Z → Z → string → string → string)
    (hash : string → string) (users : list Account)
    (rs : list (option string * option string * option string * Z))
  : list Account :=
  match rs with
  | [] => users
  | r :: rs' =>
      register_all sign hash
        (register sign hash r.2 users r.1.1.1 r.1.1.2 r.1.2).2 rs'
  end.

(** The identity that [jwt.verify] hands back for an account's token. *)
Definition account_identity (a : Account) : User :=
  {| user_type := Some (acc_type a); user_id := IdNum (acc_id a) |}.

(** The rate-limit middleware on a series of requests, each with the
    clock value its [checkLimit] reads. *)
Definition serve_all (this : Config) (reqs : list (Req * Z))
  : M (list (RateHeaders * Step)) :=
  mapM (λ q : Req * Z, rateLimitMiddleware this q.1 q.2) reqs.

(** No character of [s] is a space. *)
Fixpoint no_space (s : string) : bool :=
  match s with
  | EmptyString => true
  | String c s' => negb (Ascii.eqb c Ascii.Space) && no_space s'
  end.

(** The middleware handed the request on. *)
Definition passed (st : Step) : bool :=
  match st with
  | Next _ => true
  | Send _ => false
  end.

(** The status code of an answer, if the middleware answered. *)
Definition sent_status (st : Step) : option Z :=
  match st with
  | Next _ => None
  | Send res => Some (res_status res)
  end.

(** * Properties *)

(** ** The repository's unit tests, replayed on the model *)

Example getKey_user123 :
  getKey (Some (mkUser (Some "free") (IdNum 123))) "192.168.1.1" = "user:123".
Proof. vm_compute. reflexivity. Qed.

Example getLimit_tiers :
  getLimit demo guest_user = 3 ∧ getLimit demo (free_user 1) = 10 ∧
  getLimit demo (premium_user 2) = 50 ∧ getLimit demo None = 3.
Proof. repeat split. Qed.

Example guest_four_calls :
  (λ r, (allowed r, remaining r)) <$>
    (checkAll demo (requests None "10.0.0.1" [0; 1; 2; 3]) ∅).1 =
  [(true, 2); (true, 1); (true, 0); (false, 0)].
Proof. vm_compute. reflexivity. Qed.

Example free_after_guest :
  remaining
    (checkLimit demo (free_user 7) "10.0.0.1" 4
       (checkAll demo (requests None "10.0.0.1" [0; 1; 2; 3]) ∅).2).1 = 9.
Proof. vm_compute. reflexivity. Qed.

Example reset_restores_full_limit :
  let s := (checkAll demo (requests (free_user 1) "192.168.1.1"
                             [0; 0; 0; 0; 0]) ∅).2 in
  st_remaining (getStatus demo (free_user 1) "192.168.1.1" 1 s).1 = 5 ∧
  st_remaining (getStatus demo (free_user 1) "192.168.1.1" 1
                  (reset (free_user 1) "192.168.1.1" s).2).1 = 10.
Proof. vm_compute. split; reflexivity. Qed.

(** ** Equations of [checkLimit], one per path through the method *)

(** Expose the reads and writes of [checkLimit]. *)
Ltac unfold_checkLimit :=
  unfold checkLimit, mbind, M_bind, storage_get, storage_set, mret, M_ret, ret.

Section CheckLimitPaths.

Variable this : Config.
Implicit Types (s : gmap string WindowState) (user : option User)
  (ip : string) (now : Z) (w : WindowState).

Lemma expired_true now w :
  expired this now w = true ↔ windowSize this ≤ now - windowStart w.
Proof. unfold expired. apply bool_decide_eq_true. Qed.

Lemma expired_false now w :
  expired this now w = false ↔ now - windowStart w < windowSize this.
Proof. unfold expired. rewrite bool_decide_eq_false. lia. Qed.

Lemma checkLimit_fresh_allowed s user ip now :
  starts_window this now (s !! getKey user ip) = true →
  0 < getLimit this user →
  checkLimit this user ip now s =
    ({| allowed := true;
        remaining := getLimit this user - 1;
        total := getLimit this user;
        resetTime := now + windowSize this;
        userType := userTypeOf user |},
     <[getKey user ip := {| count := 1; windowStart := now |}]> s).
Proof.
  intros Hfresh Hlim.
  unfold_checkLimit.
  destruct (s !! getKey user ip) as [w|] eqn:Hk; simpl in *.
  - rewrite Hfresh; simpl.
    rewrite bool_decide_eq_true_2 by lia; simpl.
    rewrite insert_insert_eq. do 2 f_equal. lia.
  - rewrite bool_decide_eq_true_2 by lia; simpl.
    rewrite insert_insert_eq. do 2 f_equal. lia.
Qed.

Lemma checkLimit_fresh_denied s user ip now :
  starts_window this now (s !! getKey user ip) = true →
  getLimit this user ≤ 0 →
  checkLimit this user ip now s =
    ({| allowed := false;
        remaining := 0;
        total := getLimit this user;
        resetTime := now + windowSize this;
        userType := userTypeOf user |},
     <[getKey user ip := {| count := 0; windowStart := now |}]> s).
Proof.
  intros Hfresh Hlim.
  unfold_checkLimit.
  destruct (s !! getKey user ip) as [w|] eqn:Hk; simpl in *.
  - rewrite Hfresh; simpl.
    rewrite bool_decide_eq_false_2 by lia; simpl.
    do 2 f_equal. lia.
  - rewrite bool_decide_eq_false_2 by lia; simpl.
    do 2 f_equal. lia.
Qed.

Lemma checkLimit_active_allowed s user ip now w :
  s !! getKey user ip = Some w →
  expired this now w = false →
  count w < getLimit this user →
  checkLimit this user ip now s =
    ({| allowed := true;
        remaining := getLimit this user - count w - 1;
        total := getLimit this user;
        resetTime := windowStart w + windowSize this;
        userType := userTypeOf user |},
     <[getKey user ip := {| count := count w + 1;
                            windowStart := windowStart w |}]> s).
Proof.
  intros Hk Hexp Hlim.
  unfold_checkLimit.
  rewrite Hk; simpl. rewrite Hexp; simpl.
  rewrite bool_decide_eq_true_2 by lia; simpl.
  do 2 f_equal. lia.
Qed.

Lemma checkLimit_active_denied s user ip now w :
  s !! getKey user ip = Some w →
  expired this now w = false →
  getLimit this user ≤ count w →
  checkLimit this user ip now s =
    ({| allowed := false;
        remaining := 0;
        total := getLimit this user;
        resetTime := windowStart w + windowSize this;
        userType := userTypeOf user |},
     s).
Proof.
  intros Hk Hexp Hlim.
  unfold_checkLimit.
  rewrite Hk; simpl. rewrite Hexp; simpl.
  rewrite bool_decide_eq_false_2 by lia; simpl.
  do 2 f_equal. lia.
Qed.

End CheckLimitPaths.

(** ** Unfolding the monad *)

Lemma storage_delete_store key (s : gmap string WindowState) :
  (storage_delete key s).2 = delete key s.
Proof. reflexivity. Qed.

Lemma bind_store {A B} (m : M A) (f : A → M B) (s : gmap string WindowState) :
  (m ≫= f) s = f (m s).1 (m s).2.
Proof. unfold mbind, M_bind. destruct (m s); reflexivity. Qed.

Lemma forEach_cons {A} (x : A) l (f : A → M unit) (s : gmap string WindowState) :
  forEach (x :: l) f s = forEach l f (f x s).2.
Proof. simpl. rewrite bind_store. reflexivity. Qed.

Lemma mapM_cons {A B} (f : A → M B) x l (s : gmap string WindowState) :
  mapM f (x :: l) s =
    ((f x s).1 :: (mapM f l (f x s).2).1, (mapM f l (f x s).2).2).
Proof.
  simpl. rewrite bind_store. rewrite bind_store. reflexivity.
Qed.

Lemma mapM_length {A B} (f : A → M B) l (s : gmap string WindowState) :
  length (mapM f l s).1 = length l.
Proof.
  revert s. induction l as [|x l IH]; intros s; [reflexivity|].
  rewrite mapM_cons. simpl. by rewrite IH.
Qed.

(** ** Key derivation *)

Lemma truthy_id_spec (i : JsId) :
  truthy_id i = true ↔ i ≠ IdNull ∧ i ≠ IdNum 0 ∧ i ≠ IdStr "".
Proof.
  destruct i as [|n|t]; simpl.
  - split; [discriminate | intros (? & _); congruence].
  - rewrite negb_true_iff, Z.eqb_neq. split.
    + intros Hn. repeat split; congruence.
    + intros (_ & Hn & _) ->. by apply Hn.
  - rewrite negb_true_iff, String.eqb_neq. split.
    + intros Hn. repeat split; congruence.
    + intros (_ & _ & Hn) ->. by apply Hn.
Qed.

(** C4, as stated, fails: an identity of a non-guest tier whose id is the
    number 0 has a non-null id, yet [getKey] keys it by address. *)
Lemma getKey_zero_id_by_address :
  user_id (mkUser (Some "free") (IdNum 0)) ≠ IdNull ∧
  user_type (mkUser (Some "free") (IdNum 0)) ≠ Some "guest" ∧
  getKey (Some (mkUser (Some "free") (IdNum 0))) "1.2.3.4" = "ip:1.2.3.4" ∧
  getKey (Some (mkUser (Some "free") (IdNum 0))) "1.2.3.4" ≠
    "user:" ++ id_to_string (IdNum 0).
Proof. repeat split; discriminate. Qed.

(** C4 (amended): [getKey] is a function of its two arguments alone; it
    returns ["user:<id>"] exactly when the identity is present, its type
    is not ["guest"] and its id is truthy (not null, not the number 0,
    not the empty string), and ["ip:<originAddress>"] in every other
    case. *)
Theorem getKey_spec (user : option User) (ip : string) :
  (∀ u, user = Some u →
        user_type u ≠ Some "guest" → truthy_id (user_id u) = true →
        getKey user ip = "user:" ++ id_to_string (user_id u)) ∧
  ((user = None ∨
    ∃ u, user = Some u ∧
         (user_type u = Some "guest" ∨ truthy_id (user_id u) = false)) →
   getKey user ip = "ip:" ++ ip) ∧
  (∀ i, getKey user ip = "user:" ++ i ↔
        ∃ u, user = Some u ∧ user_type u ≠ Some "guest" ∧
             truthy_id (user_id u) = true ∧ i = id_to_string (user_id u)) ∧
  (∀ i : JsId, truthy_id i = true ↔ i ≠ IdNull ∧ i ≠ IdNum 0 ∧ i ≠ IdStr "").
Proof.
  split; [|split; [|split]].
  - intros u -> Ht Hid. unfold getKey.
    rewrite bool_decide_eq_false_2 by done. by rewrite Hid.
  - intros [->|(u & -> & [Ht|Hid])]; unfold getKey; [done| |].
    + by rewrite bool_decide_eq_true_2.
    + rewrite Hid. by rewrite andb_false_r.
  - intros i. unfold getKey. destruct user as [u|].
    + case_bool_decide as Ht; simpl.
      * split; [discriminate|]. intros (u' & [= <-] & Hn & _). by destruct Hn.
      * destruct (truthy_id (user_id u)) eqn:Hid.
        -- split.
           ++ intros Hi. cbv [String.append] in Hi.
              injection Hi as <-. by exists u.
           ++ by intros (u' & [= <-] & _ & _ & ->).
        -- split; [discriminate|].
           intros (u' & [= <-] & _ & ? & _). congruence.
    + split; [discriminate|]. by intros (u' & ? & _).
  - apply truthy_id_spec.
Qed.

Lemma getKey_spec_witness :
  user_type (mkUser (Some "free") (IdNum 123)) ≠ Some "guest" ∧
  truthy_id (user_id (mkUser (Some "free") (IdNum 123))) = true ∧
  getKey (free_user 123) "192.168.1.1" = "user:" ++ id_to_string (IdNum 123) ∧
  getKey guest_user "192.168.1.1" = "ip:" ++ "192.168.1.1".
Proof.
  split; [discriminate|]. split; [reflexivity|]. split.
  - apply (proj1 (getKey_spec (free_user 123) "192.168.1.1")
             (mkUser (Some "free") (IdNum 123)));
      [reflexivity | discriminate | reflexivity].
  - apply (proj1 (proj2 (getKey_spec guest_user "192.168.1.1"))).
    right. exists (mkUser (Some "guest") IdNull).
    split; [reflexivity | left; reflexivity].
Defined.

(** ** Denial leaves the store alone *)

(** C10: when the key's stored window has not expired and its count has
    reached the limit, [checkLimit] answers [allowed = false] and the
    whole store (this key's count and window start, and every other
    key's entry) is what it was before the call. *)
Theorem checkLimit_denied_frame (this : Config) (s : gmap string WindowState)
    (user : option User) (ip : string) (now : Z) (w : WindowState) :
  s !! getKey user ip = Some w →
  now - windowStart w < windowSize this →
  getLimit this user ≤ count w →
  allowed (checkLimit this user ip now s).1 = false ∧
  (checkLimit this user ip now s).2 = s ∧
  (checkLimit this user ip now s).2 !! getKey user ip = Some w ∧
  ∀ k, (checkLimit this user ip now s).2 !! k = s !! k.
Proof.
  intros Hk Hwin Hsat.
  rewrite (checkLimit_active_denied this s user ip now w)
    by (try apply expired_false; done).
  simpl. by repeat split.
Qed.

Lemma checkLimit_denied_frame_witness :
  let s : gmap string WindowState :=
    {[ "ip:10.0.0.1" := {| count := 3; windowStart := 100 |} ]} in
  s !! getKey guest_user "10.0.0.1" =
    Some {| count := 3; windowStart := 100 |} ∧
  allowed (checkLimit demo guest_user "10.0.0.1" 200 s).1 = false ∧
  (checkLimit demo guest_user "10.0.0.1" 200 s).2 = s.
Proof.
  intros s.
  assert (Hk : s !! getKey guest_user "10.0.0.1" =
               Some {| count := 3; windowStart := 100 |}) by reflexivity.
  split; [exact Hk|].
  pose proof (checkLimit_denied_frame demo s guest_user "10.0.0.1" 200 _ Hk)
    as H.
  destruct H as (Ha & Hs & _); [vm_compute; reflexivity | vm_compute; discriminate |].
  split; [exact Ha | exact Hs].
Defined.

(** ** Window expiry *)

(** C7: when the key's stored window satisfies
    [now - windowStart >= windowSize], [checkLimit] answers and stores
    exactly what it would for a key with no entry: the old count is
    dropped whatever it was, the stored window starts at [now], and an
    admitted call reports [remaining = limit - 1]. *)
Theorem checkLimit_expired_fresh (this : Config) (s : gmap string WindowState)
    (user : option User) (ip : string) (now : Z) (w : WindowState) :
  s !! getKey user ip = Some w →
  windowSize this ≤ now - windowStart w →
  let r := (checkLimit this user ip now s).1 in
  let s' := (checkLimit this user ip now s).2 in
  checkLimit this user ip now s =
    checkLimit this user ip now (delete (getKey user ip) s) ∧
  r = (checkLimit this user ip now ∅).1 ∧
  s' !! getKey user ip =
    Some {| count := if allowed r then 1 else 0; windowStart := now |} ∧
  resetTime r = now + windowSize this ∧
  allowed r = bool_decide (0 < getLimit this user) ∧
  (allowed r = true → remaining r = getLimit this user - 1).
Proof.
  intros Hk Hexp r s'. subst r s'.
  assert (Hs : starts_window this now (s !! getKey user ip) = true).
  { rewrite Hk. simpl. by apply expired_true. }
  assert (Hd : starts_window this now
                 (delete (getKey user ip) s !! getKey user ip) = true).
  { by rewrite lookup_delete_eq. }
  assert (He : starts_window this now
                 ((∅ : gmap string WindowState) !! getKey user ip) = true).
  { by rewrite lookup_empty. }
  destruct (decide (0 < getLimit this user)) as [Hl|Hl].
  - rewrite !checkLimit_fresh_allowed by done. simpl.
    rewrite insert_delete_eq, lookup_insert_eq.
    rewrite bool_decide_eq_true_2 by done. done.
  - rewrite !checkLimit_fresh_denied by (done || lia). simpl.
    rewrite insert_delete_eq, lookup_insert_eq.
    rewrite bool_decide_eq_false_2 by done. done.
Qed.

Lemma checkLimit_expired_fresh_witness :
  let s : gmap string WindowState :=
    {[ "ip:10.0.0.1" := {| count := 3; windowStart := 0 |} ]} in
  windowSize demo ≤ 3600000 - 0 ∧
  (checkLimit demo guest_user "10.0.0.1" 3600000 s).2 !! "ip:10.0.0.1" =
    Some {| count := 1; windowStart := 3600000 |} ∧
  remaining (checkLimit demo guest_user "10.0.0.1" 3600000 s).1 = 3 - 1.
Proof.
  intros s.
  assert (Hk : s !! getKey guest_user "10.0.0.1" =
               Some {| count := 3; windowStart := 0 |}) by reflexivity.
  assert (Hw : windowSize demo ≤ 3600000 - windowStart
                 {| count := 3; windowStart := 0 |})
    by (vm_compute; discriminate).
  split; [exact Hw|].
  destruct (checkLimit_expired_fresh demo s guest_user "10.0.0.1" 3600000 _
              Hk Hw) as (_ & _ & Hst & _ & _ & Hrem).
  split; [exact Hst | apply Hrem; reflexivity].
Defined.

(** ** Status queries *)

Lemma getStatus_store (this : Config) user ip now (s : gmap string WindowState) :
  (getStatus this user ip now s).2 = s.
Proof.
  unfold getStatus. rewrite bind_store. unfold storage_get; simpl.
  destruct (s !! getKey user ip) as [w|]; [|reflexivity].
  destruct (expired this now w); reflexivity.
Qed.

Lemma statusAll_store (this : Config) qs (s : gmap string WindowState) :
  (statusAll this qs s).2 = s.
Proof.
  unfold statusAll. induction qs as [|q qs IH]; [reflexivity|].
  rewrite mapM_cons. simpl. by rewrite getStatus_store.
Qed.

Lemma getStatus_fresh (this : Config) user ip now (s : gmap string WindowState) :
  starts_window this now (s !! getKey user ip) = true →
  (getStatus this user ip now s).1 =
    {| st_remaining := getLimit this user;
       st_total := getLimit this user;
       st_resetTime := now + windowSize this;
       st_userType := userTypeOf user |}.
Proof.
  intros Hs. unfold getStatus. rewrite bind_store. unfold storage_get; simpl.
  destruct (s !! getKey user ip) as [w|]; [|reflexivity].
  simpl in Hs. by rewrite Hs.
Qed.

(** C6: [getStatus] writes nothing.  One call, or any list of calls,
    returns the store it was given; two [checkLimit] calls give the same
    two results and the same final store whether or not [getStatus]
    calls run between them; and on a key that has no entry or whose
    window has expired [getStatus] reports the full limit and
    [resetTime = now + windowSize], again with the store as it was. *)
Theorem getStatus_no_write (this : Config) (s : gmap string WindowState)
    (c1 c2 : Request) (qs : list Request) :
  (∀ user ip now, (getStatus this user ip now s).2 = s) ∧
  (statusAll this qs s).2 = s ∧
  check_status_check this c1 qs c2 s = check_check this c1 c2 s ∧
  (∀ user ip now,
     (s !! getKey user ip = None ∨
      ∃ w, s !! getKey user ip = Some w ∧
           windowSize this ≤ now - windowStart w) →
     (getStatus this user ip now s).1 =
       {| st_remaining := getLimit this user;
          st_total := getLimit this user;
          st_resetTime := now + windowSize this;
          st_userType := userTypeOf user |} ∧
     (getStatus this user ip now s).2 !! getKey user ip = s !! getKey user ip).
Proof.
  split; [|split; [|split]].
  - intros. apply getStatus_store.
  - apply statusAll_store.
  - unfold check_status_check, check_check.
    repeat (rewrite bind_store; cbv beta).
    by rewrite statusAll_store.
  - intros user ip now Hs. rewrite getStatus_store. split; [|reflexivity].
    apply getStatus_fresh.
    destruct Hs as [->|(w & -> & Hw)]; [reflexivity|].
    simpl. by apply expired_true.
Qed.

Lemma getStatus_no_write_witness :
  let s : gmap string WindowState :=
    {[ "user:1" := {| count := 10; windowStart := 0 |} ]} in
  (s !! getKey (free_user 1) "10.0.0.1" =
     Some {| count := 10; windowStart := 0 |} ∧
   windowSize demo ≤ 3600000 - 0) ∧
  (getStatus demo (free_user 1) "10.0.0.1" 3600000 s).1 =
    {| st_remaining := 10; st_total := 10; st_resetTime := 7200000;
       st_userType := "free" |} ∧
  (getStatus demo (free_user 1) "10.0.0.1" 3600000 s).2 !! "user:1" =
    Some {| count := 10; windowStart := 0 |}.
Proof.
  intros s.
  assert (Hk : s !! getKey (free_user 1) "10.0.0.1" =
               Some {| count := 10; windowStart := 0 |}) by reflexivity.
  assert (Hw : windowSize demo ≤ 3600000 - 0) by (vm_compute; discriminate).
  split; [split; [exact Hk | exact Hw]|].
  destruct (getStatus_no_write demo s (None, "", 0) (None, "", 0) [])
    as (_ & _ & _ & H).
  apply (H (free_user 1) "10.0.0.1" 3600000).
  right. exists {| count := 10; windowStart := 0 |}.
  split; [exact Hk | exact Hw].
Defined.

(** ** Reset *)

(** C8: [reset] deletes the entry of the derived key and nothing else;
    on a key without an entry it leaves the store as it was, so a second
    [reset] changes nothing; after a [reset], [getStatus] on that key
    reports [remaining = limit], and [checkLimit] on that key answers as
    on an empty store, with [remaining = limit - 1] when it admits. *)
Theorem reset_spec (this : Config) (s : gmap string WindowState)
    (user : option User) (ip : string) :
  let s' := (reset user ip s).2 in
  s' = delete (getKey user ip) s ∧
  s' !! getKey user ip = None ∧
  (∀ k, k ≠ getKey user ip → s' !! k = s !! k) ∧
  (s !! getKey user ip = None → s' = s) ∧
  (reset user ip s').2 = s' ∧
  (∀ user' ip' now,
     getKey user' ip' = getKey user ip →
     (checkLimit this user' ip' now s').1 = (checkLimit this user' ip' now ∅).1 ∧
     (checkLimit this user' ip' now s').2 !! getKey user ip =
       (checkLimit this user' ip' now ∅).2 !! getKey user ip ∧
     (allowed (checkLimit this user' ip' now s').1 = true →
      remaining (checkLimit this user' ip' now s').1 = getLimit this user' - 1) ∧
     st_remaining (getStatus this user' ip' now s').1 = getLimit this user').
Proof.
  intros s'. subst s'. unfold reset. rewrite !storage_delete_store.
  split; [reflexivity|]. split; [apply lookup_delete_eq|].
  split; [by intros k Hk; apply lookup_delete_ne|].
  split; [apply delete_id|].
  split; [apply delete_id, lookup_delete_eq|].
  intros user' ip' now Hkey.
  assert (Hd : starts_window this now
                 (delete (getKey user ip) s !! getKey user' ip') = true).
  { by rewrite Hkey, lookup_delete_eq. }
  assert (He : starts_window this now
                 ((∅ : gmap string WindowState) !! getKey user' ip') = true).
  { by rewrite lookup_empty. }
  rewrite getStatus_fresh by done. simpl.
  destruct (decide (0 < getLimit this user')) as [Hl|Hl].
  - rewrite !checkLimit_fresh_allowed by done. simpl.
    rewrite Hkey, !lookup_insert_eq. done.
  - rewrite !checkLimit_fresh_denied by (done || lia). simpl.
    rewrite Hkey, !lookup_insert_eq. done.
Qed.

Lemma reset_spec_witness :
  let s : gmap string WindowState :=
    {[ "user:1" := {| count := 5; windowStart := 0 |} ]} in
  getKey (free_user 1) "192.168.1.1" = getKey (free_user 1) "10.0.0.1" ∧
  (reset (free_user 1) "192.168.1.1" s).2 = ∅ ∧
  remaining (checkLimit demo (free_user 1) "10.0.0.1" 7
               (reset (free_user 1) "192.168.1.1" s).2).1 = 10 - 1 ∧
  st_remaining (getStatus demo (free_user 1) "10.0.0.1" 7
                  (reset (free_user 1) "192.168.1.1" s).2).1 = 10.
Proof.
  intros s.
  assert (Hkey : getKey (free_user 1) "192.168.1.1" =
                 getKey (free_user 1) "10.0.0.1") by reflexivity.
  split; [exact Hkey|].
  destruct (reset_spec demo s (free_user 1) "192.168.1.1")
    as (Hdel & _ & _ & _ & _ & Hnext).
  split; [rewrite Hdel; vm_compute; reflexivity|].
  destruct (Hnext (free_user 1) "10.0.0.1" 7 (eq_sym Hkey))
    as (_ & _ & Hrem & Hst).
  split; [apply Hrem; reflexivity | exact Hst].
Defined.

(** ** Cleanup and the debug snapshot *)

Lemma forEach_delete_lookup (ks : list string) (s : gmap string WindowState) k :
  (forEach ks storage_delete s).2 !! k =
    if decide (k ∈ ks) then None else s !! k.
Proof.
  revert s. induction ks as [|k0 ks IH]; intros s.
  - reflexivity.
  - rewrite forEach_cons, IH, storage_delete_store.
    destruct (decide (k ∈ ks)) as [Hin|Hin].
    + by rewrite decide_True by (by right).
    + destruct (decide (k = k0)) as [->|Hne].
      * rewrite decide_True by left. apply lookup_delete_eq.
      * rewrite decide_False by (rewrite elem_of_cons; tauto).
        by apply lookup_delete_ne.
Qed.

Lemma keysToDelete_elem (this : Config) now (s : gmap string WindowState) k :
  k ∈ (filter (λ kv : string * WindowState, expired this now kv.2 = true)
         (map_to_list s)).*1 ↔
  ∃ w, s !! k = Some w ∧ expired this now w = true.
Proof.
  rewrite list_elem_of_fmap. split.
  - intros ([k' w] & -> & Hin). apply list_elem_of_filter in Hin as [He Hin].
    apply elem_of_map_to_list in Hin. by exists w.
  - intros (w & Hk & He). exists (k, w). split; [reflexivity|].
    apply list_elem_of_filter. split; [exact He|].
    by apply elem_of_map_to_list.
Qed.

Lemma cleanup_lookup (this : Config) now (s : gmap string WindowState) k :
  (cleanup this now s).2 !! k =
    match s !! k with
    | Some w => if expired this now w then None else Some w
    | None => None
    end.
Proof.
  unfold cleanup. rewrite bind_store. unfold storage_entries; simpl.
  rewrite forEach_delete_lookup.
  destruct (decide (k ∈ _)) as [Hin|Hin].
  - apply keysToDelete_elem in Hin as (w & -> & ->). reflexivity.
  - destruct (s !! k) as [w|] eqn:Hk; [|reflexivity].
    destruct (expired this now w) eqn:He; [|reflexivity].
    exfalso. apply Hin, keysToDelete_elem. by exists w.
Qed.

Lemma foldl_insert_lookup {A B} (f : A → B) (l : list (string * A))
    (acc : gmap string B) k :
  NoDup l.*1 →
  foldl (λ (data : gmap string B) (kv : string * A), <[kv.1 := f kv.2]> data)
    acc l !! k =
  match (list_to_map l : gmap string A) !! k with
  | Some a => Some (f a)
  | None => acc !! k
  end.
Proof.
  revert acc. induction l as [|[k0 a0] l IH]; intros acc Hnd.
  - simpl. by rewrite lookup_empty.
  - apply NoDup_cons in Hnd as [Hk0 Hnd]. simpl. rewrite IH by done.
    destruct (decide (k = k0)) as [->|Hne].
    + rewrite lookup_insert_eq.
      by rewrite (not_elem_of_list_to_map_1 l k0), lookup_insert_eq.
    + rewrite (lookup_insert_ne (list_to_map l)) by done.
      destruct (list_to_map l !! k); [reflexivity|].
      by apply lookup_insert_ne.
Qed.

Lemma getDebugInfo_lookup (this : Config) now (s : gmap string WindowState) k :
  (getDebugInfo this now s).1 !! k =
    (λ w, {| dbg_count := count w;
             dbg_windowStart := windowStart w;
             timeRemaining :=
               Z.max 0 (windowStart w + windowSize this - now) |}) <$> s !! k.
Proof.
  unfold getDebugInfo. rewrite bind_store. unfold storage_entries; simpl.
  rewrite (foldl_insert_lookup
             (λ w, {| dbg_count := count w;
                      dbg_windowStart := windowStart w;
                      timeRemaining :=
                        Z.max 0 (windowStart w + windowSize this - now) |}))
    by apply NoDup_fst_map_to_list.
  rewrite list_to_map_to_list, lookup_empty.
  by destruct (s !! k).
Qed.

(** C9: after [cleanup] at time [now], a key whose entry satisfied
    [now - windowStart >= windowSize] has no entry (and is missing from
    the debug snapshot); a key whose entry satisfied
    [now - windowStart < windowSize] keeps its entry, count and window
    start unchanged; and no key gains an entry. *)
Theorem cleanup_spec (this : Config) (now : Z) (s : gmap string WindowState)
    (k : string) :
  let s' := (cleanup this now s).2 in
  (∀ w, s !! k = Some w → windowSize this ≤ now - windowStart w →
        s' !! k = None ∧ ∀ later, (getDebugInfo this later s').1 !! k = None) ∧
  (∀ w, s !! k = Some w → now - windowStart w < windowSize this →
        s' !! k = Some w ∧
        (getDebugInfo this now s').1 !! k =
          Some {| dbg_count := count w; dbg_windowStart := windowStart w;
                  timeRemaining := windowStart w + windowSize this - now |}) ∧
  (s !! k = None → s' !! k = None) ∧
  (s' !! k = None ↔
   s !! k = None ∨ ∃ w, s !! k = Some w ∧ windowSize this ≤ now - windowStart w).
Proof.
  intros s'. subst s'.
  split; [|split; [|split]].
  - intros w Hk He. apply expired_true in He.
    assert (Hn : (cleanup this now s).2 !! k = None)
      by (by rewrite cleanup_lookup, Hk, He).
    split; [exact Hn|]. intros later. by rewrite getDebugInfo_lookup, Hn.
  - intros w Hk He.
    assert (Hn : (cleanup this now s).2 !! k = Some w).
    { apply expired_false in He. by rewrite cleanup_lookup, Hk, He. }
    split; [exact Hn|]. rewrite getDebugInfo_lookup, Hn. simpl.
    do 2 f_equal. lia.
  - intros Hk. by rewrite cleanup_lookup, Hk.
  - rewrite cleanup_lookup. destruct (s !! k) as [w|]; [|by split; [left|]].
    destruct (expired this now w) eqn:He.
    + split; [|done]. intros _. right. exists w. split; [done|].
      by apply expired_true.
    + split; [discriminate|]. intros [?|(w' & [= <-] & Hw)]; [done|].
      apply expired_false in He. lia.
Qed.

Lemma cleanup_spec_witness :
  let s : gmap string WindowState :=
    {[ "ip:10.0.0.1" := {| count := 3; windowStart := 0 |};
       "user:1" := {| count := 2; windowStart := 3000000 |} ]} in
  (windowSize demo ≤ 3600000 - 0 ∧ 3600000 - 3000000 < windowSize demo) ∧
  (cleanup demo 3600000 s).2 !! "ip:10.0.0.1" = None ∧
  (cleanup demo 3600000 s).2 !! "user:1" =
    Some {| count := 2; windowStart := 3000000 |}.
Proof.
  intros s.
  assert (H1 : windowSize demo ≤ 3600000 - 0) by (vm_compute; discriminate).
  assert (H2 : 3600000 - 3000000 < windowSize demo) by (vm_compute; reflexivity).
  split; [split; [exact H1 | exact H2]|]. split.
  - destruct (cleanup_spec demo 3600000 s "ip:10.0.0.1") as (H & _).
    apply (H {| count := 3; windowStart := 0 |}); [reflexivity | exact H1].
  - destruct (cleanup_spec demo 3600000 s "user:1") as (_ & H & _).
    apply (H {| count := 2; windowStart := 3000000 |}); [reflexivity | exact H2].
Defined.

(** ** A quota of zero *)

(** The constructor replaces a variable set to 0 by the default. *)
Example RateLimiter_new_zero_guest :
  guest (limits (RateLimiter_new
                   {| GUEST_LIMIT := Some 0; FREE_LIMIT := None;
                      PREMIUM_LIMIT := None; WINDOW_SIZE_HOURS := None |})) = 3.
Proof. reflexivity. Qed.

(** C5 (the code at the failing input): with [FREE_LIMIT=0] the
    constructor's [parseInt(...) || 10] stores 10 for the free tier, so
    [getLimit] gives a free identity the limit 10, its first call on an
    empty store is admitted with [remaining = 9] at any address and
    time, and ten calls in a row are all admitted: the quota of 0 is not
    enforced.  A quota of -1 is kept by the same [||] and denies. *)
Theorem zero_quota_replaced_by_default (ip : string) (now : Z) :
  let this := RateLimiter_new zero_free_env in
  FREE_LIMIT zero_free_env = Some 0 ∧
  free (limits this) = 10 ∧
  getLimit this (free_user 1) = 10 ∧
  allowed (checkLimit this (free_user 1) ip now ∅).1 = true ∧
  remaining (checkLimit this (free_user 1) ip now ∅).1 = 9 ∧
  allowed <$>
    (checkAll this (requests (free_user 1) "10.0.0.1" (replicate 10 0)) ∅).1 =
    replicate 10 true ∧
  getLimit (RateLimiter_new negative_free_env) (free_user 1) = -1 ∧
  allowed (checkLimit (RateLimiter_new negative_free_env) (free_user 1)
             ip now ∅).1 = false.
Proof.
  intros this. subst this.
  split; [reflexivity|]. split; [reflexivity|]. split; [reflexivity|].
  rewrite (checkLimit_fresh_allowed (RateLimiter_new zero_free_env) ∅
             (free_user 1) ip now) by (by rewrite ?lookup_empty).
  split; [reflexivity|]. split; [reflexivity|].
  split; [vm_compute; reflexivity|]. split; [reflexivity|].
  by rewrite (checkLimit_fresh_denied (RateLimiter_new negative_free_env) ∅
                (free_user 1) ip now) by (by rewrite ?lookup_empty).
Qed.

(** ** Runs of calls inside one window *)

Lemma admitted_cons (r : CheckResult) rs :
  admitted (r :: rs) = (if allowed r then 1 else 0) + admitted rs.
Proof.
  unfold admitted. destruct (allowed r) eqn:Hr.
  - rewrite filter_cons_True by done. simpl length. lia.
  - rewrite filter_cons_False by (rewrite Hr; discriminate). lia.
Qed.

Lemma window_eta (w : WindowState) :
  {| count := count w; windowStart := windowStart w |} = w.
Proof. by destruct w. Qed.

(** Calls that all fall on one key with one limit while its window is
    open: call number [i] (from 0) is admitted exactly when the count it
    finds, [count w + i], is below the limit; the store ends with the
    count raised by the number of admissions. *)
Lemma checkAll_open_window (this : Config) (k : string) (L : Z)
    (rs : list Request) :
  ∀ (s : gmap string WindowState) (w : WindowState),
    s !! k = Some w →
    Forall (hits this k L w) rs →
    (∀ (i : nat) r, (checkAll this rs s).1 !! i = Some r →
       allowed r = bool_decide (count w + Z.of_nat i < L) ∧
       remaining r = (if allowed r then L - (count w + Z.of_nat i) - 1 else 0) ∧
       total r = L ∧
       resetTime r = windowStart w + windowSize this) ∧
    admitted (checkAll this rs s).1 =
      Z.max 0 (Z.min (L - count w) (Z.of_nat (length rs))) ∧
    (checkAll this rs s).2 =
      <[k := {| count := count w + admitted (checkAll this rs s).1;
                windowStart := windowStart w |}]> s.
Proof.
  unfold checkAll.
  induction rs as [|[[user ip] now] rs IH]; intros s w Hk Hall.
  - simpl. split; [intros i r Hi; by rewrite lookup_nil in Hi|].
    split; [unfold admitted; simpl; lia|].
    unfold admitted; simpl. rewrite Z.add_0_r, window_eta.
    symmetry. by apply insert_id.
  - apply Forall_cons in Hall as [(Hkey & HL & Hwin) Hall].
    simpl in Hkey, HL, Hwin. rewrite mapM_cons. cbn [fst snd].
    apply expired_false in Hwin.
    destruct (decide (count w < L)) as [Hlt|Hge].
    + rewrite (checkLimit_active_allowed this s user ip now w)
        by (rewrite ?Hkey, ?HL; done).
      cbn [fst snd]. rewrite Hkey, HL.
      set (w1 := {| count := count w + 1; windowStart := windowStart w |}).
      destruct (IH (<[k := w1]> s) w1) as (Hres & Hadm & Hst).
      { apply lookup_insert_eq. }
      { exact Hall. }
      split; [|split].
      * intros [|i] r Hi.
        -- injection Hi as <-. cbn.
           rewrite bool_decide_eq_true_2 by lia.
           repeat split; lia.
        -- destruct (Hres i r Hi) as (Ha & Hrem & Ht & Hrt).
           subst w1; cbn [count windowStart] in Ha, Hrem, Hrt.
           split; [|split; [|done]].
           ++ rewrite Ha. apply bool_decide_ext. lia.
           ++ rewrite Hrem. destruct (allowed r); lia.
      * rewrite admitted_cons, Hadm. subst w1; cbn [count allowed length].
        lia.
      * rewrite Hst, admitted_cons, insert_insert_eq.
        subst w1; cbn [count windowStart allowed].
        do 2 f_equal. lia.
    + rewrite (checkLimit_active_denied this s user ip now w)
        by (rewrite ?Hkey, ?HL; done || lia).
      cbn [fst snd]. rewrite HL.
      destruct (IH s w Hk Hall) as (Hres & Hadm & Hst).
      split; [|split].
      * intros [|i] r Hi.
        -- injection Hi as <-. cbn.
           rewrite bool_decide_eq_false_2 by lia. done.
        -- destruct (Hres i r Hi) as (Ha & Hrem & Ht & Hrt).
           split; [|split; [|done]].
           ++ rewrite Ha. apply bool_decide_ext. lia.
           ++ rewrite Hrem, Ha. rewrite bool_decide_eq_false_2 by lia. done.
      * rewrite admitted_cons, Hadm. cbn [allowed length]. lia.
      * rewrite admitted_cons. cbn [allowed]. rewrite Z.add_0_l. exact Hst.
Qed.

Lemma requests_hits (this : Config) user ip (w : WindowState) ts :
  Forall (λ t, t - windowStart w < windowSize this) ts →
  Forall (hits this (getKey user ip) (getLimit this user) w)
    (requests user ip ts).
Proof.
  intros H. unfold requests. apply Forall_fmap.
  eapply Forall_impl; [exact H|]. intros t Ht. by repeat split.
Qed.

(** C1: one identity and one address, an empty store, a first call at
    [t1] and every later call at a time [t] with
    [t - t1 < windowSize] (so no call finds the window expired).  With
    [L] the limit of the identity, call number [n + 1] is admitted with
    [remaining = L - (n + 1)] as long as [n + 1 <= L], and every call
    after the [L]-th, the [(L+1)]-th included, is denied with
    [remaining = 0]. *)
Theorem checkLimit_monotonic_consumption (this : Config) (user : option User)
    (ip : string) (t1 : Z) (ts : list Z) :
  Forall (λ t, t - t1 < windowSize this) ts →
  let L := getLimit this user in
  let out := (checkAll this (requests user ip (t1 :: ts)) ∅).1 in
  length out = S (length ts) ∧
  (∀ (n : nat) r, out !! n = Some r → Z.of_nat n < L →
     allowed r = true ∧ remaining r = L - (Z.of_nat n + 1)) ∧
  (∀ (n : nat) r, out !! n = Some r → L ≤ Z.of_nat n →
     allowed r = false ∧ remaining r = 0).
Proof.
  intros Hwin L out. subst out.
  split.
  { unfold checkAll, requests. by rewrite mapM_length, length_fmap. }
  unfold requests. rewrite fmap_cons. fold (requests user ip ts).
  unfold checkAll. rewrite mapM_cons. cbn [fst snd].
  fold (checkAll this (requests user ip ts)).
  assert (He : starts_window this t1
                 ((∅ : gmap string WindowState) !! getKey user ip) = true)
    by (by rewrite lookup_empty).
  destruct (decide (0 < L)) as [Hpos|Hneg].
  - rewrite (checkLimit_fresh_allowed this ∅ user ip t1) by done.
    cbn [fst snd].
    set (w1 := {| count := 1; windowStart := t1 |}).
    destruct (checkAll_open_window this (getKey user ip) L
                (requests user ip ts) (<[getKey user ip := w1]> ∅) w1)
      as (Hres & _).
    { apply lookup_insert_eq. }
    { by apply requests_hits. }
    split.
    + intros [|n] r Hn Hlt.
      * injection Hn as <-. cbn. split; [done|]. fold L. lia.
      * destruct (Hres n r Hn) as (Ha & Hrem & _).
        cbn [count w1] in Ha, Hrem.
        rewrite bool_decide_eq_true_2 in Ha by lia.
        rewrite Ha in Hrem. split; [done|]. lia.
    + intros [|n] r Hn Hge.
      * simpl in Hge. lia.
      * destruct (Hres n r Hn) as (Ha & Hrem & _).
        cbn [count w1] in Ha, Hrem.
        rewrite bool_decide_eq_false_2 in Ha by lia.
        rewrite Ha in Hrem. done.
  - rewrite (checkLimit_fresh_denied this ∅ user ip t1) by (done || lia).
    cbn [fst snd].
    set (w0 := {| count := 0; windowStart := t1 |}).
    destruct (checkAll_open_window this (getKey user ip) L
                (requests user ip ts) (<[getKey user ip := w0]> ∅) w0)
      as (Hres & _).
    { apply lookup_insert_eq. }
    { by apply requests_hits. }
    split.
    + intros n r _ Hlt. lia.
    + intros [|n] r Hn Hge.
      * injection Hn as <-. done.
      * destruct (Hres n r Hn) as (Ha & Hrem & _).
        cbn [count w0] in Ha, Hrem.
        rewrite bool_decide_eq_false_2 in Ha by lia.
        rewrite Ha in Hrem. done.
Qed.

Lemma checkLimit_monotonic_consumption_witness :
  let out := (checkAll demo (requests None "10.0.0.1" [0; 1; 2; 3]) ∅).1 in
  Forall (λ t, t - 0 < windowSize demo) [1; 2; 3] ∧
  length out = 4%nat ∧
  (∀ (n : nat) r, out !! n = Some r → Z.of_nat n < 3 →
     allowed r = true ∧ remaining r = 3 - (Z.of_nat n + 1)) ∧
  (∀ (n : nat) r, out !! n = Some r → 3 ≤ Z.of_nat n →
     allowed r = false ∧ remaining r = 0).
Proof.
  intros out.
  assert (H : Forall (λ t, t - 0 < windowSize demo) [1; 2; 3])
    by (repeat constructor).
  split; [exact H|].
  exact (checkLimit_monotonic_consumption demo None "10.0.0.1" 0 [1; 2; 3] H).
Defined.

(** ** Calls racing for the last slot

    [checkLimit] is synchronous: it contains no [await], callback or
    other point at which the event loop can run another handler, so each
    call runs to completion before the next one starts.  Every execution
    of a set of pending calls is therefore one of their serial orders,
    each call reading the clock when its turn comes: a list of
    [Request]s given to [checkAll]. *)

(** C3: take a key whose stored window is open.  (1) Whatever calls for
    that key (with limit [L]) are pending and in whatever order they
    run, the stored count ends at the old count plus the number of calls
    admitted, and does not exceed [L]; other keys are untouched.
    (2) When the count is [L - 1] and two calls race, in either order
    exactly one is admitted. *)
Theorem checkLimit_last_slot_race (this : Config) (s : gmap string WindowState)
    (k : string) (L : Z) (w : WindowState) :
  s !! k = Some w →
  (count w ≤ L →
   ∀ rs, Forall (hits this k L w) rs →
     let out := checkAll this rs s in
     length out.1 = length rs ∧
     out.2 !! k = Some {| count := count w + admitted out.1;
                          windowStart := windowStart w |} ∧
     count w + admitted out.1 ≤ L ∧
     ∀ k', k' ≠ k → out.2 !! k' = s !! k') ∧
  (count w = L - 1 →
   ∀ r1 r2 sched,
     hits this k L w r1 → hits this k L w r2 →
     Permutation sched [r1; r2] →
     let out := checkAll this sched s in
     admitted out.1 = 1 ∧
     (∃ ra rb, out.1 = [ra; rb] ∧ allowed ra = true ∧ allowed rb = false) ∧
     out.2 !! k = Some {| count := L; windowStart := windowStart w |}).
Proof.
  intros Hk. split.
  - intros Hle rs Hrs out. subst out.
    destruct (checkAll_open_window this k L rs s w Hk Hrs)
      as (_ & Hadm & Hst).
    split; [apply mapM_length|].
    rewrite Hst. split; [apply lookup_insert_eq|].
    split; [rewrite Hadm; lia|].
    intros k' Hne. by apply lookup_insert_ne.
  - intros Hc r1 r2 sched H1 H2 Hperm out. subst out.
    assert (Hrs : Forall (hits this k L w) sched).
    { apply Permutation_sym, Permutation_length_2_inv in Hperm
        as [->| ->];
        (constructor; [assumption | constructor; [assumption | constructor]]). }
    assert (Hlen : length sched = 2%nat).
    { by rewrite (Permutation_length Hperm). }
    destruct (checkAll_open_window this k L sched s w Hk Hrs)
      as (Hres & Hadm & Hst).
    pose proof (mapM_length
                  (λ r : Request, checkLimit this r.1.1 r.1.2 r.2) sched s)
      as Hout.
    fold (checkAll this sched) in Hout. rewrite Hlen in Hout.
    assert (Hone : admitted (checkAll this sched s).1 = 1).
    { rewrite Hadm, Hlen. lia. }
    split; [exact Hone|]. split.
    + destruct (checkAll this sched s).1 as [|ra [|rb [|rc out]]];
        try discriminate.
      exists ra, rb. split; [reflexivity|].
      destruct (Hres 0%nat ra eq_refl) as (Ha & _).
      destruct (Hres 1%nat rb eq_refl) as (Hb & _).
      rewrite Ha, Hb, bool_decide_eq_true_2, bool_decide_eq_false_2 by lia.
      done.
    + rewrite Hst, Hone, lookup_insert_eq. do 2 f_equal. lia.
Qed.

Lemma checkLimit_last_slot_race_witness :
  let s : gmap string WindowState :=
    {[ "ip:10.0.0.1" := {| count := 2; windowStart := 0 |} ]} in
  let w := {| count := 2; windowStart := 0 |} in
  let r1 : Request := (None, "10.0.0.1", 5) in
  let r2 : Request := (guest_user, "10.0.0.1", 5) in
  (s !! "ip:10.0.0.1" = Some w ∧ count w = 3 - 1 ∧
   hits demo "ip:10.0.0.1" 3 w r1 ∧ hits demo "ip:10.0.0.1" 3 w r2 ∧
   Permutation [r2; r1] [r1; r2]) ∧
  admitted (checkAll demo [r2; r1] s).1 = 1 ∧
  (checkAll demo [r2; r1] s).2 !! "ip:10.0.0.1" =
    Some {| count := 3; windowStart := 0 |}.
Proof.
  intros s w r1 r2.
  assert (Hk : s !! "ip:10.0.0.1" = Some w) by reflexivity.
  assert (Hc : count w = 3 - 1) by reflexivity.
  assert (H1 : hits demo "ip:10.0.0.1" 3 w r1) by (by repeat split).
  assert (H2 : hits demo "ip:10.0.0.1" 3 w r2) by (by repeat split).
  assert (Hp : Permutation [r2; r1] [r1; r2]) by apply perm_swap.
  split; [by repeat split|].
  destruct (checkLimit_last_slot_race demo s "ip:10.0.0.1" 3 w Hk) as (_ & H).
  destruct (H Hc r1 r2 [r2; r1] H1 H2 Hp) as (Hone & _ & Hst).
  split; [exact Hone | exact Hst].
Defined.

(** ** Stored counts and limits *)

(** What one [checkLimit] leaves in the store. *)
Lemma checkLimit_store (this : Config) (s : gmap string WindowState)
    user ip now :
  let r := (checkLimit this user ip now s).1 in
  let s' := (checkLimit this user ip now s).2 in
  (∀ k, k ≠ getKey user ip → s' !! k = s !! k) ∧
  ∃ w', s' !! getKey user ip = Some w' ∧
    ((allowed r = true ∧ count w' ≤ getLimit this user ∧
      (count w' = 1 ∨
       ∃ w, s !! getKey user ip = Some w ∧ count w' = count w + 1)) ∨
     (allowed r = false ∧
      (count w' = 0 ∨ s !! getKey user ip = Some w'))).
Proof.
  intros r s'. subst r s'.
  destruct (starts_window this now (s !! getKey user ip)) eqn:Hf.
  - destruct (decide (0 < getLimit this user)) as [Hl|Hl].
    + rewrite checkLimit_fresh_allowed by done. cbn [fst snd].
      split; [by intros k Hne; apply lookup_insert_ne|].
      eexists. split; [apply lookup_insert_eq|].
      left. cbn. split; [done|]. split; [lia | by left].
    + rewrite checkLimit_fresh_denied by (done || lia). cbn [fst snd].
      split; [by intros k Hne; apply lookup_insert_ne|].
      eexists. split; [apply lookup_insert_eq|].
      right. cbn. split; [done | by left].
  - destruct (s !! getKey user ip) as [w|] eqn:Hk; [|discriminate].
    simpl in Hf.
    destruct (decide (count w < getLimit this user)) as [Hl|Hl].
    + rewrite (checkLimit_active_allowed this s user ip now w) by done.
      cbn [fst snd].
      split; [by intros k Hne; apply lookup_insert_ne|].
      eexists. split; [apply lookup_insert_eq|].
      left. cbn. split; [done|]. split; [lia|]. right. by exists w.
    + rewrite (checkLimit_active_denied this s user ip now w)
        by (done || lia).
      cbn [fst snd]. split; [done|].
      exists w. split; [done|]. right. split; [done | by right].
Qed.

Lemma checkLimit_bounded (this : Config) (b : string → Z)
    (s : gmap string WindowState) user ip now :
  (∀ k, 0 ≤ b k) →
  bounded_by b s →
  bounded_by
    (λ k, if bool_decide (getKey user ip = k)
          then Z.max (getLimit this user) (b k) else b k)
    (checkLimit this user ip now s).2.
Proof.
  intros Hb Hs k w' Hk'.
  destruct (checkLimit_store this s user ip now) as (Hframe & w1 & Hkey & Hc).
  case_bool_decide as Heq.
  - subst k. rewrite Hkey in Hk'. injection Hk' as <-.
    specialize (Hb (getKey user ip)).
    destruct Hc as [(_ & Hle & [H1|(w & Hw & Hw1)])|(_ & [H0|Hsame])].
    + lia.
    + apply Hs in Hw. lia.
    + lia.
    + apply Hs in Hsame. lia.
  - rewrite Hframe in Hk' by done. by apply Hs.
Qed.

Lemma run_op_bounded (this : Config) (b : string → Z)
    (s : gmap string WindowState) (o : Op) :
  (∀ k, 0 ≤ b k) →
  bounded_by b s →
  bounded_by (λ k, Z.max (b k) (limit_seen this k [o])) (run_op this o s).2.
Proof.
  intros Hb Hs. destruct o as [user ip now|user ip now|user ip|now];
    cbn [run_op limit_seen].
  - rewrite bind_store. cbn [snd ret mret M_ret].
    intros k w Hk. apply (checkLimit_bounded this b s user ip now Hb Hs) in Hk.
    specialize (Hb k). case_bool_decide; lia.
  - rewrite bind_store. cbn [snd ret mret M_ret]. rewrite getStatus_store.
    intros k w Hk. apply Hs in Hk. lia.
  - intros k w Hk. unfold reset in Hk. rewrite storage_delete_store in Hk.
    apply lookup_delete_Some in Hk as [_ Hk]. apply Hs in Hk. lia.
  - intros k w Hk. rewrite cleanup_lookup in Hk.
    destruct (s !! k) as [w0|] eqn:Hk0; [|discriminate].
    destruct (expired this now w0); [discriminate|]. injection Hk as <-.
    apply Hs in Hk0. lia.
Qed.

Lemma limit_seen_nonneg (this : Config) k ops : 0 ≤ limit_seen this k ops.
Proof.
  induction ops as [|[user ip now|user ip now|user ip|now] ops IH];
    cbn [limit_seen]; try done.
  case_bool_decide; lia.
Qed.

Lemma limit_seen_cons (this : Config) k o ops :
  limit_seen this k (o :: ops) =
    Z.max (limit_seen this k [o]) (limit_seen this k ops).
Proof.
  pose proof (limit_seen_nonneg this k ops).
  destruct o as [user ip now|user ip now|user ip|now]; cbn [limit_seen];
    try lia.
  case_bool_decide; lia.
Qed.

Lemma run_ops_bounded (this : Config) (ops : list Op) :
  ∀ (b : string → Z) (s : gmap string WindowState),
    (∀ k, 0 ≤ b k) →
    bounded_by b s →
    bounded_by (λ k, Z.max (b k) (limit_seen this k ops))
      (run_ops this ops s).2.
Proof.
  unfold run_ops. induction ops as [|o ops IH]; intros b s Hb Hs.
  - intros k w Hk. apply Hs in Hk. cbn [limit_seen]. lia.
  - rewrite forEach_cons.
    pose proof (run_op_bounded this b s o Hb Hs) as H1.
    apply IH in H1.
    + intros k w Hk. apply H1 in Hk. rewrite limit_seen_cons. lia.
    + intros k. specialize (Hb k). lia.
Qed.

Lemma limit_seen_le (this : Config) k L ops :
  0 ≤ L →
  (∀ user ip now, OpCheckLimit user ip now ∈ ops →
                  getKey user ip = k → getLimit this user ≤ L) →
  limit_seen this k ops ≤ L.
Proof.
  intros HL. induction ops as [|o ops IH]; intros Hall; [done|].
  rewrite limit_seen_cons.
  assert (limit_seen this k ops ≤ L) by (apply IH; intros; eapply Hall; [by right|done]).
  destruct o as [user ip now|user ip now|user ip|now]; cbn [limit_seen];
    try lia.
  case_bool_decide as Heq; [|lia].
  pose proof (Hall user ip now (list_elem_of_here _ _) Heq). lia.
Qed.

(** C2, as stated, fails: a free identity without id is keyed by its
    address and may raise that key's count to 4; a guest at the same
    address, whose limit is 3, then accesses the key and is denied, and
    the stored 4 exceeds the limit of the tier of that last access. *)
Lemma shared_key_exceeds_last_limit :
  let ops := (replicate 4 (OpCheckLimit free_no_id "10.0.0.1" 0) ++
              [OpCheckLimit guest_user "10.0.0.1" 1])%list in
  (run_ops demo ops ∅).2 !! "ip:10.0.0.1" =
    Some {| count := 4; windowStart := 0 |} ∧
  last_limit demo "ip:10.0.0.1" ops = Some 3 ∧
  ¬ (count {| count := 4; windowStart := 0 |} ≤ 3).
Proof. repeat split. vm_compute. by intros H. Qed.

(** The count stored for [k] is 0, or positive and within the limit [a]
    of the last admission on [k]. *)
Lemma run_op_last_admitted (this : Config) (k : string) (o : Op)
    (s : gmap string WindowState) (a : option Z) :
  (∀ w, s !! k = Some w →
        count w = 0 ∨ ∃ L, a = Some L ∧ 0 < count w ≤ L) →
  ∀ w, (run_op this o s).2 !! k = Some w →
       count w = 0 ∨
       ∃ L, from_option Some a (admits_on this k o s) = Some L ∧
            0 < count w ≤ L.
Proof.
  intros Hs w Hk.
  destruct o as [user ip now|user ip now|user ip|now];
    cbn [run_op admits_on from_option] in *.
  - rewrite bind_store in Hk. cbn [snd ret mret M_ret] in Hk.
    destruct (checkLimit_store this s user ip now) as (Hframe & w1 & Hkey & Hc).
    case_bool_decide as Heq; cbn [andb].
    + subst k. rewrite Hkey in Hk. injection Hk as <-.
      destruct Hc as [(-> & Hle & [H1|(w0 & Hw0 & Hw1)])|(-> & [H0|Hsame])];
        cbn [from_option].
      * right. eexists. split; [done|lia].
      * right. eexists. split; [done|].
        destruct (Hs w0 Hw0) as [?|(? & _ & ?)]; lia.
      * by left.
      * by apply Hs.
    + rewrite Hframe in Hk by done. by apply Hs.
  - rewrite bind_store in Hk. cbn [snd ret mret M_ret] in Hk.
    rewrite getStatus_store in Hk. by apply Hs.
  - unfold reset in Hk. rewrite storage_delete_store in Hk.
    apply lookup_delete_Some in Hk as [_ Hk]. by apply Hs.
  - rewrite cleanup_lookup in Hk.
    destruct (s !! k) as [w0|] eqn:Hk0; [|discriminate].
    destruct (expired this now w0); [discriminate|]. injection Hk as <-.
    by apply Hs.
Qed.

Lemma run_ops_last_admitted (this : Config) (k : string) (ops : list Op) :
  ∀ (s : gmap string WindowState) (a : option Z),
    (∀ w, s !! k = Some w →
          count w = 0 ∨ ∃ L, a = Some L ∧ 0 < count w ≤ L) →
    ∀ w, (run_ops this ops s).2 !! k = Some w →
         count w = 0 ∨
         ∃ L, from_option Some a (last_admitted this k ops s) = Some L ∧
              0 < count w ≤ L.
Proof.
  unfold run_ops. induction ops as [|o ops IH]; intros s a Hs w Hk.
  - by apply Hs.
  - rewrite forEach_cons in Hk. cbn [last_admitted].
    pose proof (run_op_last_admitted this k o s a Hs) as H1.
    destruct (IH _ _ H1 w Hk) as [?|(L & HL & ?)]; [by left|].
    right. exists L. split; [|done].
    by destruct (last_admitted this k ops (run_op this o s).2).
Qed.

(** C2 (amended): over every sequence of [checkLimit], [getStatus],
    [reset] and [cleanup] from an empty store, every stored count is 0,
    or positive and at most the limit of the last [checkLimit] that was
    admitted on that key; it lies between 0 and the largest limit under
    which [checkLimit] was called for that key (hence at most [L] when
    every such call used a limit of at most [L]); and on any store, a
    [checkLimit] that admits leaves for its key a count that does not
    exceed the limit that call used. *)
Theorem stored_count_bounded (this : Config) :
  (∀ ops k w,
     (run_ops this ops ∅).2 !! k = Some w →
     count w = 0 ∨
     ∃ L, last_admitted this k ops ∅ = Some L ∧ 0 < count w ≤ L) ∧
  (∀ ops k w,
     (run_ops this ops ∅).2 !! k = Some w →
     0 ≤ count w ≤ limit_seen this k ops) ∧
  (∀ ops k w L,
     (run_ops this ops ∅).2 !! k = Some w →
     0 ≤ L →
     (∀ user ip now, OpCheckLimit user ip now ∈ ops →
                     getKey user ip = k → getLimit this user ≤ L) →
     count w ≤ L) ∧
  (∀ s user ip now,
     allowed (checkLimit this user ip now s).1 = true →
     ∃ w, (checkLimit this user ip now s).2 !! getKey user ip = Some w ∧
          count w ≤ getLimit this user).
Proof.
  assert (Hmain : ∀ ops k w,
            (run_ops this ops ∅).2 !! k = Some w →
            0 ≤ count w ≤ limit_seen this k ops).
  { intros ops k w Hk.
    assert (Hb : bounded_by (λ _, 0) (∅ : gmap string WindowState)).
    { intros k' w' Hk'. by rewrite lookup_empty in Hk'. }
    apply (run_ops_bounded this ops (λ _, 0) ∅) in Hb; [|done].
    apply Hb in Hk. pose proof (limit_seen_nonneg this k ops). lia. }
  split; [|split; [exact Hmain|split]].
  - intros ops k w Hk.
    destruct (run_ops_last_admitted this k ops ∅ None) with (w := w)
      as [?|(L & HL & ?)]; [|done|by left|].
    + intros w'. by rewrite lookup_empty.
    + right. exists L. split; [|done].
      by destruct (last_admitted this k ops ∅).
  - intros ops k w L Hk HL Hall.
    pose proof (Hmain ops k w Hk). pose proof (limit_seen_le this k L ops HL Hall).
    lia.
  - intros s user ip now Ha.
    destruct (checkLimit_store this s user ip now) as (_ & w' & Hk & Hc).
    exists w'. split; [exact Hk|].
    destruct Hc as [(_ & Hle & _)|(Hd & _)]; [exact Hle | congruence].
Qed.

Lemma stored_count_bounded_witness :
  let ops := (replicate 4 (OpCheckLimit free_no_id "10.0.0.1" 0) ++
              [OpCheckLimit guest_user "10.0.0.1" 1])%list in
  (run_ops demo ops ∅).2 !! "ip:10.0.0.1" =
    Some {| count := 4; windowStart := 0 |} ∧
  last_admitted demo "ip:10.0.0.1" ops ∅ = Some 10 ∧
  limit_seen demo "ip:10.0.0.1" ops = 10 ∧
  0 ≤ count {| count := 4; windowStart := 0 |} ≤ limit_seen demo "ip:10.0.0.1" ops.
Proof.
  intros ops.
  assert (Hk : (run_ops demo ops ∅).2 !! "ip:10.0.0.1" =
               Some {| count := 4; windowStart := 0 |})
    by (vm_compute; reflexivity).
  split; [exact Hk|]. split; [vm_compute; reflexivity|].
  split; [vm_compute; reflexivity|].
  exact (proj1 (proj2 (stored_count_bounded demo)) ops "ip:10.0.0.1" _ Hk).
Defined.

(** * Further properties of the limiter *)

(** ** The four paths of [checkLimit] at once *)

Lemma checkLimit_cases (this : Config) (s : gmap string WindowState)
    user ip now :
  (starts_window this now (s !! getKey user ip) = true ∧
   0 < getLimit this user ∧
   checkLimit this user ip now s =
     ({| allowed := true; remaining := getLimit this user - 1;
         total := getLimit this user; resetTime := now + windowSize this;
         userType := userTypeOf user |},
      <[getKey user ip := {| count := 1; windowStart := now |}]> s)) ∨
  (starts_window this now (s !! getKey user ip) = true ∧
   getLimit this user ≤ 0 ∧
   checkLimit this user ip now s =
     ({| allowed := false; remaining := 0;
         total := getLimit this user; resetTime := now + windowSize this;
         userType := userTypeOf user |},
      <[getKey user ip := {| count := 0; windowStart := now |}]> s)) ∨
  (∃ w, s !! getKey user ip = Some w ∧ expired this now w = false ∧
        count w < getLimit this user ∧
        checkLimit this user ip now s =
          ({| allowed := true; remaining := getLimit this user - count w - 1;
              total := getLimit this user;
              resetTime := windowStart w + windowSize this;
              userType := userTypeOf user |},
           <[getKey user ip := {| count := count w + 1;
                                  windowStart := windowStart w |}]> s)) ∨
  (∃ w, s !! getKey user ip = Some w ∧ expired this now w = false ∧
        getLimit this user ≤ count w ∧
        checkLimit this user ip now s =
          ({| allowed := false; remaining := 0;
              total := getLimit this user;
              resetTime := windowStart w + windowSize this;
              userType := userTypeOf user |},
           s)).
Proof.
  destruct (starts_window this now (s !! getKey user ip)) eqn:Hf.
  - destruct (decide (0 < getLimit this user)) as [Hl|Hl].
    + left. by rewrite checkLimit_fresh_allowed.
    + right; left. by rewrite checkLimit_fresh_denied by (done || lia); split; [|split; [lia|]].
  - destruct (s !! getKey user ip) as [w|] eqn:Hk; [|discriminate].
    simpl in Hf. right; right.
    destruct (decide (count w < getLimit this user)) as [Hl|Hl].
    + left. exists w.
      by rewrite (checkLimit_active_allowed this s user ip now w).
    + right. exists w.
      rewrite (checkLimit_active_denied this s user ip now w) by (done || lia).
      repeat split; (done || lia).
Qed.

(** ** What a result says *)

(** X1: for an identity whose tier name is not one that the table
    inherits, and whatever the store, [checkLimit] reports the limit and
    tier of the identity, a [remaining] that is never negative and is 0 on a
    denial, and a [resetTime] that is the stored window start plus the
    window size (in the future when the window size is positive); an
    admitted call reports [remaining = limit - stored count], which is
    below the limit when the stored counts were not negative. *)
Theorem checkLimit_result_consistent (this : Config)
    (s : gmap string WindowState) (user : option User) (ip : string) (now : Z) :
  inherited_name (userTypeOf user) = false →
  let r := (checkLimit this user ip now s).1 in
  let s' := (checkLimit this user ip now s).2 in
  total r = getLimit this user ∧
  userType r = userTypeOf user ∧
  0 ≤ remaining r ∧
  (allowed r = false → remaining r = 0) ∧
  (0 < windowSize this → now < resetTime r) ∧
  (∃ w', s' !! getKey user ip = Some w' ∧
         resetTime r = windowStart w' + windowSize this ∧
         (allowed r = true → remaining r = total r - count w')) ∧
  (nonneg_counts s → allowed r = true → remaining r < total r).
Proof.
  intros _ r s'. subst r s'.
  destruct (checkLimit_cases this s user ip now)
    as [(Hf & HL & ->)|[(Hf & HL & ->)|[(w & Hk & He & HL & ->)|(w & Hk & He & HL & ->)]]];
    cbn [fst snd total userType remaining allowed resetTime];
    try apply expired_false in He.
  - repeat split; try (done || lia).
    eexists. split; [apply lookup_insert_eq|]. cbn. split; [done|]. intros _; lia.
  - repeat split; try (done || lia).
    eexists. split; [apply lookup_insert_eq|]. cbn. by split.
  - repeat split; try (done || lia).
    + eexists. split; [apply lookup_insert_eq|]. cbn. split; [done|]. intros _; lia.
    + intros Hs _. pose proof (Hs _ _ Hk) as Hc. simpl in Hc. lia.
  - repeat split; try (done || lia).
    exists w. by split.
Qed.

Lemma checkLimit_result_consistent_witness :
  let s : gmap string WindowState :=
    {[ "user:1" := {| count := 10; windowStart := 0 |} ]} in
  inherited_name (userTypeOf (free_user 1)) = false ∧
  total (checkLimit demo (free_user 1) "10.0.0.1" 5 s).1 = 10 ∧
  0 ≤ remaining (checkLimit demo (free_user 1) "10.0.0.1" 5 s).1.
Proof.
  intros s.
  assert (H : inherited_name (userTypeOf (free_user 1)) = false) by reflexivity.
  split; [exact H|].
  destruct (checkLimit_result_consistent demo s (free_user 1) "10.0.0.1" 5 H)
    as (Ht & _ & Hr & _).
  split; [exact Ht | exact Hr].
Defined.

(** X2: for an identity whose tier name is not one that the table
    inherits, at one clock value [getStatus] predicts [checkLimit]: same
    limit, tier and reset time; [checkLimit] admits exactly when
    [getStatus] reports a positive [remaining], and then reports one
    less. *)
Theorem getStatus_predicts_checkLimit (this : Config)
    (s : gmap string WindowState) (user : option User) (ip : string) (now : Z) :
  inherited_name (userTypeOf user) = false →
  let st := (getStatus this user ip now s).1 in
  let r := (checkLimit this user ip now s).1 in
  st_total st = total r ∧
  st_userType st = userType r ∧
  st_resetTime st = resetTime r ∧
  allowed r = bool_decide (0 < st_remaining st) ∧
  remaining r = (if allowed r then st_remaining st - 1 else 0).
Proof.
  intros _ st r. subst st r.
  destruct (checkLimit_cases this s user ip now)
    as [(Hf & HL & ->)|[(Hf & HL & ->)|[(w & Hk & He & HL & ->)|(w & Hk & He & HL & ->)]]];
    cbn [fst snd total userType remaining allowed resetTime].
  - rewrite getStatus_fresh by done. cbn.
    by rewrite bool_decide_eq_true_2.
  - rewrite getStatus_fresh by done. cbn.
    by rewrite bool_decide_eq_false_2 by lia.
  - unfold getStatus. rewrite bind_store. unfold storage_get; cbn [fst snd].
    rewrite Hk, He. cbn. rewrite bool_decide_eq_true_2 by lia.
    repeat split. lia.
  - unfold getStatus. rewrite bind_store. unfold storage_get; cbn [fst snd].
    rewrite Hk, He. cbn. rewrite bool_decide_eq_false_2 by lia. done.
Qed.

Lemma getStatus_predicts_checkLimit_witness :
  let s : gmap string WindowState :=
    {[ "user:1" := {| count := 9; windowStart := 0 |} ]} in
  inherited_name (userTypeOf (free_user 1)) = false ∧
  st_remaining (getStatus demo (free_user 1) "10.0.0.1" 5 s).1 = 1 ∧
  allowed (checkLimit demo (free_user 1) "10.0.0.1" 5 s).1 =
    bool_decide (0 < st_remaining (getStatus demo (free_user 1) "10.0.0.1" 5 s).1).
Proof.
  intros s.
  assert (H : inherited_name (userTypeOf (free_user 1)) = false) by reflexivity.
  split; [exact H|]. split; [reflexivity|].
  destruct (getStatus_predicts_checkLimit demo s (free_user 1) "10.0.0.1" 5 H)
    as (_ & _ & _ & Ha & _).
  exact Ha.
Defined.

(** X3: under a positive limit a denial can only come from a stored
    window that is still open and full, and it leaves the store exactly
    as it was. *)
Theorem checkLimit_denial_positive_limit (this : Config)
    (s : gmap string WindowState) (user : option User) (ip : string) (now : Z) :
  0 < getLimit this user →
  allowed (checkLimit this user ip now s).1 = false →
  (checkLimit this user ip now s).2 = s ∧
  ∃ w, s !! getKey user ip = Some w ∧
       now - windowStart w < windowSize this ∧
       getLimit this user ≤ count w.
Proof.
  intros HL Hd.
  destruct (checkLimit_cases this s user ip now)
    as [(Hf & HL' & Heq)|[(Hf & HL' & Heq)|[(w & Hk & He & HL' & Heq)|(w & Hk & He & HL' & Heq)]]];
    rewrite Heq in *; cbn [fst snd allowed] in *; try (discriminate || lia).
  split; [done|]. exists w. apply expired_false in He. done.
Qed.

Lemma checkLimit_denial_positive_limit_witness :
  let s : gmap string WindowState :=
    {[ "user:1" := {| count := 10; windowStart := 0 |} ]} in
  0 < getLimit demo (free_user 1) ∧
  allowed (checkLimit demo (free_user 1) "10.0.0.1" 5 s).1 = false ∧
  (checkLimit demo (free_user 1) "10.0.0.1" 5 s).2 = s.
Proof.
  intros s.
  assert (HL : 0 < getLimit demo (free_user 1)) by reflexivity.
  assert (Hd : allowed (checkLimit demo (free_user 1) "10.0.0.1" 5 s).1 = false)
    by reflexivity.
  split; [exact HL|]. split; [exact Hd|].
  exact (proj1 (checkLimit_denial_positive_limit demo s (free_user 1)
                  "10.0.0.1" 5 HL Hd)).
Defined.

(** ** Keys do not interfere *)

(** Two stores that hold the same entry for the key, or in both of which
    the key starts a new window, give the same answers. *)
Lemma checkLimit_agree (this : Config) (s1 s2 : gmap string WindowState)
    user ip now :
  s1 !! getKey user ip = s2 !! getKey user ip ∨
  (starts_window this now (s1 !! getKey user ip) = true ∧
   starts_window this now (s2 !! getKey user ip) = true) →
  (checkLimit this user ip now s1).1 = (checkLimit this user ip now s2).1 ∧
  (checkLimit this user ip now s1).2 !! getKey user ip =
    (checkLimit this user ip now s2).2 !! getKey user ip.
Proof.
  intros H.
  destruct (checkLimit_cases this s1 user ip now)
    as [(Hf & HL & ->)|[(Hf & HL & ->)|[(w & Hk & He & HL & ->)|(w & Hk & He & HL & ->)]]];
    cbn [fst snd].
  - assert (Hf2 : starts_window this now (s2 !! getKey user ip) = true)
      by (destruct H as [<-|[_ ?]]; done).
    rewrite checkLimit_fresh_allowed by done. cbn [fst snd].
    by rewrite !lookup_insert_eq.
  - assert (Hf2 : starts_window this now (s2 !! getKey user ip) = true)
      by (destruct H as [<-|[_ ?]]; done).
    rewrite checkLimit_fresh_denied by done. cbn [fst snd].
    by rewrite !lookup_insert_eq.
  - destruct H as [H|[Hf _]]; [|rewrite Hk in Hf; simpl in Hf; congruence].
    rewrite Hk in H.
    rewrite (checkLimit_active_allowed this s2 user ip now w) by done.
    cbn [fst snd]. by rewrite !lookup_insert_eq.
  - destruct H as [H|[Hf _]]; [|rewrite Hk in Hf; simpl in Hf; congruence].
    rewrite Hk in H.
    rewrite (checkLimit_active_denied this s2 user ip now w) by done.
    cbn [fst snd]. by rewrite Hk, <- H.
Qed.

Lemma getStatus_agree (this : Config) (s1 s2 : gmap string WindowState)
    user ip now :
  s1 !! getKey user ip = s2 !! getKey user ip ∨
  (starts_window this now (s1 !! getKey user ip) = true ∧
   starts_window this now (s2 !! getKey user ip) = true) →
  (getStatus this user ip now s1).1 = (getStatus this user ip now s2).1.
Proof.
  intros [H|[H1 H2]].
  - unfold getStatus. rewrite !bind_store. unfold storage_get; cbn [fst snd].
    rewrite H. destruct (s2 !! getKey user ip) as [w|]; [|done].
    by destruct (expired this now w).
  - by rewrite !getStatus_fresh.
Qed.

Lemma checkAll_frame (this : Config) (k : string) (rs : list Request) :
  ∀ s : gmap string WindowState,
    Forall (λ r : Request, getKey r.1.1 r.1.2 ≠ k) rs →
    (checkAll this rs s).2 !! k = s !! k.
Proof.
  unfold checkAll. induction rs as [|[[u i] t] rs IH]; intros s Hall; [done|].
  apply Forall_cons in Hall as [Hne Hall]. simpl in Hne.
  rewrite mapM_cons. cbn [fst snd]. rewrite IH by done.
  destruct (checkLimit_store this s u i t) as (Hframe & _).
  by apply Hframe.
Qed.

(** X4: calls that fall on other keys, however many, leave this key's
    entry as it was, and with it what [checkLimit] and [getStatus]
    answer for this key. *)
Theorem checkLimit_key_independence (this : Config)
    (s : gmap string WindowState) (rs : list Request)
    (user : option User) (ip : string) (now : Z) :
  Forall (λ r : Request, getKey r.1.1 r.1.2 ≠ getKey user ip) rs →
  let s' := (checkAll this rs s).2 in
  s' !! getKey user ip = s !! getKey user ip ∧
  (checkLimit this user ip now s').1 = (checkLimit this user ip now s).1 ∧
  (getStatus this user ip now s').1 = (getStatus this user ip now s).1.
Proof.
  intros Hall s'. subst s'.
  pose proof (checkAll_frame this (getKey user ip) rs s Hall) as Hk.
  split; [exact Hk|]. split.
  - apply checkLimit_agree. by left.
  - apply getStatus_agree. by left.
Qed.

Lemma checkLimit_key_independence_witness :
  let rs := requests guest_user "192.168.1.1" [0; 1; 2; 3] in
  Forall (λ r : Request, getKey r.1.1 r.1.2 ≠ getKey guest_user "192.168.1.2") rs ∧
  remaining (checkLimit demo guest_user "192.168.1.2" 4
               (checkAll demo rs ∅).2).1 = 2.
Proof.
  intros rs.
  assert (H : Forall (λ r : Request,
                        getKey r.1.1 r.1.2 ≠ getKey guest_user "192.168.1.2") rs)
    by (repeat constructor; discriminate).
  split; [exact H|].
  destruct (checkLimit_key_independence demo ∅ rs guest_user "192.168.1.2" 4 H)
    as (_ & -> & _).
  reflexivity.
Defined.

(** X5: which calls share a key.  Two calls have the same key only if
    both are keyed by address and the addresses are equal, or both are
    keyed by user id and the ids render to the same text; for numeric
    ids that means the same number. *)
Theorem getKey_shared (u1 u2 : option User) (ip1 ip2 : string) :
  getKey u1 ip1 = getKey u2 ip2 →
  (getKey u1 ip1 = "ip:" ++ ip1 ∧ getKey u2 ip2 = "ip:" ++ ip2 ∧ ip1 = ip2) ∨
  (∃ a b, u1 = Some a ∧ u2 = Some b ∧
          getKey u1 ip1 = "user:" ++ id_to_string (user_id a) ∧
          getKey u2 ip2 = "user:" ++ id_to_string (user_id b) ∧
          id_to_string (user_id a) = id_to_string (user_id b) ∧
          ∀ n m, user_id a = IdNum n → user_id b = IdNum m → n = m).
Proof.
  assert (Hcase : ∀ u ip,
            getKey u ip = "ip:" ++ ip ∨
            ∃ a, u = Some a ∧ getKey u ip = "user:" ++ id_to_string (user_id a)).
  { intros [a|] ip; unfold getKey; [|by left].
    destruct (negb _ && _); [right; by exists a | by left]. }
  intros Heq.
  destruct (Hcase u1 ip1) as [H1|(a & -> & H1)],
           (Hcase u2 ip2) as [H2|(b & -> & H2)];
    rewrite H1, H2 in Heq; cbv [String.append] in Heq; try discriminate.
  - left. injection Heq as ->. by rewrite H1, H2.
  - right. exists a, b. injection Heq as Hid.
    repeat split; try done.
    intros n m Ha Hb. rewrite Ha, Hb in Hid. simpl in Hid.
    by apply (inj pretty).
Qed.

Lemma getKey_shared_witness :
  getKey (free_user 1) "10.0.0.1" = getKey (premium_user 1) "10.0.0.2" ∧
  ∀ n m, IdNum 1 = IdNum n → IdNum 1 = IdNum m → n = m.
Proof.
  assert (H : getKey (free_user 1) "10.0.0.1" = getKey (premium_user 1) "10.0.0.2")
    by reflexivity.
  split; [exact H|].
  destruct (getKey_shared _ _ _ _ H) as [(H1 & _)|(a & b & [= <-] & [= <-] & _ & _ & _ & Hn)].
  - discriminate H1.
  - exact Hn.
Defined.

(** A numeric id and the string that spells it fall on one key. *)
Example getKey_number_and_string :
  getKey (Some (mkUser (Some "free") (IdNum 5))) "10.0.0.1" =
  getKey (Some (mkUser (Some "premium") (IdStr "5"))) "10.0.0.2".
Proof. reflexivity. Qed.

(** ** Cleanup is only space reclamation *)

Lemma cleanup_starts_window (this : Config) (s : gmap string WindowState)
    (t now : Z) k :
  t ≤ now →
  (cleanup this t s).2 !! k = s !! k ∨
  (starts_window this now ((cleanup this t s).2 !! k) = true ∧
   starts_window this now (s !! k) = true).
Proof.
  intros Ht. rewrite cleanup_lookup.
  destruct (s !! k) as [w|] eqn:Hk; [|by left].
  destruct (expired this t w) eqn:He; [|by left].
  right. split; [done|]. simpl.
  apply expired_true in He. apply expired_true. lia.
Qed.

(** X6: a [cleanup] sweep at time [t] is invisible to every later call:
    [checkLimit] and [getStatus] at a time [now >= t] answer the same
    with or without the sweep, and [checkLimit] leaves the same entry
    for its key. *)
Theorem cleanup_unobservable (this : Config) (s : gmap string WindowState)
    (t now : Z) (user : option User) (ip : string) :
  t ≤ now →
  let s' := (cleanup this t s).2 in
  (checkLimit this user ip now s').1 = (checkLimit this user ip now s).1 ∧
  (checkLimit this user ip now s').2 !! getKey user ip =
    (checkLimit this user ip now s).2 !! getKey user ip ∧
  (getStatus this user ip now s').1 = (getStatus this user ip now s).1.
Proof.
  intros Ht s'. subst s'.
  pose proof (cleanup_starts_window this s t now (getKey user ip) Ht) as H.
  destruct (checkLimit_agree this _ s user ip now H) as [H1 H2].
  split; [exact H1|]. split; [exact H2|].
  by apply getStatus_agree.
Qed.

Lemma cleanup_unobservable_witness :
  let s : gmap string WindowState :=
    {[ "ip:10.0.0.1" := {| count := 3; windowStart := 0 |} ]} in
  3600000 ≤ 3600005 ∧
  (cleanup demo 3600000 s).2 = ∅ ∧
  (checkLimit demo guest_user "10.0.0.1" 3600005 s).1 =
    (checkLimit demo guest_user "10.0.0.1" 3600005 ∅).1.
Proof.
  intros s.
  assert (Ht : 3600000 ≤ 3600005) by lia.
  assert (Hc : (cleanup demo 3600000 s).2 = ∅) by (vm_compute; reflexivity).
  split; [exact Ht|]. split; [exact Hc|].
  destruct (cleanup_unobservable demo s 3600000 3600005 guest_user "10.0.0.1" Ht)
    as (H & _).
  rewrite Hc in H. symmetry. exact H.
Defined.

(** X7: [cleanup] only removes entries; a later sweep subsumes an
    earlier one, so sweeping twice at one time is sweeping once; and a
    store in which no window has expired is left as it is. *)
Theorem cleanup_compose (this : Config) (s : gmap string WindowState)
    (t t' : Z) :
  (cleanup this t s).2 ⊆ s ∧
  (t ≤ t' → (cleanup this t' (cleanup this t s).2).2 = (cleanup this t' s).2) ∧
  (cleanup this t (cleanup this t s).2).2 = (cleanup this t s).2 ∧
  (map_Forall (λ _ w, t - windowStart w < windowSize this) s →
   (cleanup this t s).2 = s).
Proof.
  assert (Hsub : ∀ a b, a ≤ b →
            (cleanup this b (cleanup this a s).2).2 = (cleanup this b s).2).
  { intros a b Hab. apply map_eq. intros k. rewrite !cleanup_lookup.
    destruct (s !! k) as [w|]; [|done].
    destruct (expired this a w) eqn:Ha; [|done].
    apply expired_true in Ha.
    assert (expired this b w = true) as -> by (apply expired_true; lia).
    done. }
  split; [|split; [|split]].
  - apply map_subseteq_spec. intros k w. rewrite cleanup_lookup.
    destruct (s !! k) as [w0|]; [|done]. by destruct (expired this t w0).
  - apply Hsub.
  - by apply Hsub.
  - intros Hall. apply map_eq. intros k. rewrite cleanup_lookup.
    destruct (s !! k) as [w|] eqn:Hk; [|done].
    apply Hall in Hk. simpl in Hk. apply expired_false in Hk. by rewrite Hk.
Qed.

Lemma cleanup_compose_witness :
  let s : gmap string WindowState :=
    {[ "ip:10.0.0.1" := {| count := 3; windowStart := 0 |};
       "user:1" := {| count := 2; windowStart := 3000000 |} ]} in
  (3600000 ≤ 7000000 ∧
   (cleanup demo 7000000 (cleanup demo 3600000 s).2).2 =
     (cleanup demo 7000000 s).2) ∧
  (map_Forall (λ _ w, 100 - windowStart w < windowSize demo) s ∧
   (cleanup demo 100 s).2 = s).
Proof.
  intros s.
  assert (Ht : 3600000 ≤ 7000000) by lia.
  assert (Hall : map_Forall (λ _ w, 100 - windowStart w < windowSize demo) s).
  { apply map_Forall_insert_2; [reflexivity|].
    apply map_Forall_singleton. reflexivity. }
  split.
  - split; [exact Ht|].
    exact (proj1 (proj2 (cleanup_compose demo s 3600000 7000000)) Ht).
  - split; [exact Hall|].
    exact (proj2 (proj2 (proj2 (cleanup_compose demo s 100 100))) Hall).
Defined.

(** X8: [getDebugInfo] writes nothing and lists exactly the stored keys,
    each with its stored count and window start; [timeRemaining] is
    never negative and is 0 exactly for the entries that a [cleanup] at
    the same time would delete. *)
Theorem getDebugInfo_snapshot (this : Config) (s : gmap string WindowState)
    (now : Z) (k : string) :
  (getDebugInfo this now s).2 = s ∧
  (s !! k = None ↔ (getDebugInfo this now s).1 !! k = None) ∧
  (∀ d, (getDebugInfo this now s).1 !! k = Some d →
        s !! k = Some {| count := dbg_count d;
                         windowStart := dbg_windowStart d |} ∧
        0 ≤ timeRemaining d ∧
        timeRemaining d =
          Z.max 0 (dbg_windowStart d + windowSize this - now) ∧
        (timeRemaining d = 0 ↔ (cleanup this now s).2 !! k = None)).
Proof.
  split; [|split].
  - unfold getDebugInfo. rewrite bind_store. reflexivity.
  - rewrite getDebugInfo_lookup. by destruct (s !! k).
  - intros d. rewrite getDebugInfo_lookup, cleanup_lookup.
    destruct (s !! k) as [w|]; [|discriminate].
    intros [= <-]. cbn. rewrite window_eta.
    split; [done|]. split; [lia|]. split; [done|].
    destruct (expired this now w) eqn:He.
    + apply expired_true in He. split; [done|]. lia.
    + apply expired_false in He. split; [lia|discriminate].
Qed.

Lemma getDebugInfo_snapshot_witness :
  let s : gmap string WindowState :=
    {[ "ip:10.0.0.1" := {| count := 3; windowStart := 0 |} ]} in
  let d := {| dbg_count := 3; dbg_windowStart := 0; timeRemaining := 3599000 |} in
  (getDebugInfo demo 1000 s).1 !! "ip:10.0.0.1" = Some d ∧
  s !! "ip:10.0.0.1" = Some {| count := 3; windowStart := 0 |} ∧
  0 ≤ timeRemaining d.
Proof.
  intros s d.
  assert (H : (getDebugInfo demo 1000 s).1 !! "ip:10.0.0.1" = Some d)
    by (vm_compute; reflexivity).
  split; [exact H|].
  destruct (getDebugInfo_snapshot demo s 1000 "ip:10.0.0.1") as (_ & _ & Hd).
  destruct (Hd d H) as (Hs & Hpos & _).
  split; [exact Hs | exact Hpos].
Defined.

(** ** The configuration that the constructor builds *)

Lemma num_or_nonzero (o : option Z) (d : Z) : d ≠ 0 → num_or o d ≠ 0.
Proof.
  intros Hd. destruct o as [n|]; simpl; [|done].
  by destruct (Z.eqb_spec n 0).
Qed.

Lemma num_or_default_nonzero (o : option Z) (d : Z) :
  (∀ n, o = Some n → n ≠ 0) → num_or o d = default d o.
Proof.
  intros Hn. destruct o as [n|]; simpl; [|done].
  destruct (Z.eqb_spec n 0) as [->|]; [|done]. by destruct (Hn 0).
Qed.

Lemma getLimit_constructed (env : Env) (user : option User) :
  getLimit (RateLimiter_new env) user =
    default (guest (limits (RateLimiter_new env)))
      (limits_lookup (limits (RateLimiter_new env)) (userTypeOf user)) ∧
  getLimit (RateLimiter_new env) user ≠ 0.
Proof.
  assert (Hg : num_or (GUEST_LIMIT env) 3 ≠ 0) by by apply num_or_nonzero.
  assert (Hf : num_or (FREE_LIMIT env) 10 ≠ 0) by by apply num_or_nonzero.
  assert (Hp : num_or (PREMIUM_LIMIT env) 50 ≠ 0) by by apply num_or_nonzero.
  assert (Hn : ∀ n, limits_lookup (limits (RateLimiter_new env))
                      (userTypeOf user) = Some n → n ≠ 0).
  { intros n. unfold limits_lookup. cbn [limits RateLimiter_new guest free premium].
    repeat case_match; intros [= <-]; done. }
  unfold getLimit. rewrite num_or_default_nonzero by done.
  split; [done|].
  destruct (limits_lookup _ _) as [n|] eqn:Hl; simpl; [by apply Hn | done].
Qed.

(** X9: in a limiter built by the constructor no limit is 0 and the
    window size is a non-zero number of hours in milliseconds, whatever
    the environment holds; hence, for an identity whose tier name is not
    one that the table inherits, [getLimit] gives a known tier its own
    entry, and the [guest] entry to everyone else (no identity, no tier,
    an unknown tier), and never returns 0. *)
Theorem RateLimiter_new_limits (env : Env) (user : option User) :
  inherited_name (userTypeOf user) = false →
  let this := RateLimiter_new env in
  guest (limits this) ≠ 0 ∧ free (limits this) ≠ 0 ∧
  premium (limits this) ≠ 0 ∧
  (∃ hours, hours ≠ 0 ∧ windowSize this = hours * 3600000) ∧
  getLimit this user =
    default (guest (limits this))
      (limits_lookup (limits this) (userTypeOf user)) ∧
  getLimit this user ≠ 0.
Proof.
  intros _ this. subst this.
  cbn [limits RateLimiter_new guest free premium windowSize].
  split; [by apply num_or_nonzero|]. split; [by apply num_or_nonzero|].
  split; [by apply num_or_nonzero|]. split.
  - exists (num_or (WINDOW_SIZE_HOURS env) 1).
    split; [by apply num_or_nonzero | lia].
  - apply (getLimit_constructed env user).
Qed.

Lemma RateLimiter_new_limits_witness :
  let user := Some (mkUser (Some "gold") (IdNum 4)) in
  inherited_name (userTypeOf user) = false ∧
  getLimit (RateLimiter_new zero_free_env) user =
    guest (limits (RateLimiter_new zero_free_env)) ∧
  getLimit (RateLimiter_new zero_free_env) user ≠ 0.
Proof.
  intros user.
  assert (H : inherited_name (userTypeOf user) = false) by reflexivity.
  split; [exact H|].
  destruct (RateLimiter_new_limits zero_free_env user H)
    as (_ & _ & _ & _ & Hl & Hn).
  split; [exact Hl | exact Hn].
Defined.

(** X10: the limits that [GET /api/limits] reports are the limits that a
    limiter constructed from the same environment applies to an
    identity whose tier name is not one that the table inherits: the
    reported [free] and [premium] numbers to identities of those tiers,
    the reported [guest] number to every other such request; the
    reported window is the limiter's window in hours. *)
Theorem limits_route_matches_limiter (env : Env) (user : option User) :
  inherited_name (userTypeOf user) = false →
  ∃ g f p hours,
    limits_route env =
      {| res_status := 200;
         res_body := LimitsBody g f p (pretty hours ++ " hour(s)") |} ∧
    windowSize (RateLimiter_new env) = hours * 3600000 ∧
    getLimit (RateLimiter_new env) user =
      if String.eqb (userTypeOf user) "free" then f
      else if String.eqb (userTypeOf user) "premium" then p
      else g.
Proof.
  intros _. eexists _, _, _, _. split; [reflexivity|]. split.
  - cbn [RateLimiter_new windowSize]. lia.
  - destruct (getLimit_constructed env user) as (-> & _).
    unfold limits_lookup. cbn [limits RateLimiter_new guest free premium].
    destruct (String.eqb_spec (userTypeOf user) "guest") as [->|]; [done|].
    by repeat case_match.
Qed.

Lemma limits_route_matches_limiter_witness :
  inherited_name (userTypeOf (premium_user 2)) = false ∧
  ∃ g f p hours,
    limits_route default_env =
      {| res_status := 200;
         res_body := LimitsBody g f p (pretty hours ++ " hour(s)") |} ∧
    windowSize (RateLimiter_new default_env) = hours * 3600000 ∧
    getLimit (RateLimiter_new default_env) (premium_user 2) = p.
Proof.
  assert (H : inherited_name (userTypeOf (premium_user 2)) = false)
    by reflexivity.
  split; [exact H|].
  destruct (limits_route_matches_limiter default_env (premium_user 2) H)
    as (g & f & p & hours & Hr & Hw & Hl).
  exists g, f, p, hours. split; [exact Hr|]. split; [exact Hw | exact Hl].
Defined.

(** ** A window size that is not positive *)

(** X11: with a window size of 0 or less (a negative
    [WINDOW_SIZE_HOURS] gives one) every stored window counts as expired
    as soon as the clock has reached its start: [checkLimit] answers as
    on an empty store, so under a positive limit it always admits and
    the limiter limits nothing. *)
Theorem checkLimit_nonpositive_window (this : Config)
    (s : gmap string WindowState) (user : option User) (ip : string) (now : Z) :
  windowSize this ≤ 0 →
  (∀ w, s !! getKey user ip = Some w → windowStart w ≤ now) →
  (checkLimit this user ip now s).1 = (checkLimit this user ip now ∅).1 ∧
  (0 < getLimit this user →
   allowed (checkLimit this user ip now s).1 = true ∧
   remaining (checkLimit this user ip now s).1 = getLimit this user - 1) ∧
  (∀ env h, WINDOW_SIZE_HOURS env = Some h → h < 0 →
            windowSize (RateLimiter_new env) < 0).
Proof.
  intros HW Hclock.
  assert (Hf : starts_window this now (s !! getKey user ip) = true).
  { destruct (s !! getKey user ip) as [w|] eqn:Hk; [|done].
    simpl. apply expired_true. specialize (Hclock w eq_refl). lia. }
  split; [|split].
  - apply checkLimit_agree. right. by rewrite lookup_empty.
  - intros HL. by rewrite checkLimit_fresh_allowed.
  - intros env h Hh Hneg. cbn [RateLimiter_new windowSize]. rewrite Hh. simpl.
    destruct (Z.eqb_spec h 0); lia.
Qed.

Lemma checkLimit_nonpositive_window_witness :
  let this := RateLimiter_new
                {| GUEST_LIMIT := None; FREE_LIMIT := None;
                   PREMIUM_LIMIT := None; WINDOW_SIZE_HOURS := Some (-1) |} in
  let s : gmap string WindowState :=
    {[ "ip:10.0.0.1" := {| count := 3; windowStart := 0 |} ]} in
  windowSize this ≤ 0 ∧
  allowed (checkLimit this guest_user "10.0.0.1" 1 s).1 = true.
Proof.
  intros this s.
  assert (HW : windowSize this ≤ 0) by (vm_compute; discriminate).
  split; [exact HW|].
  destruct (checkLimit_nonpositive_window this s guest_user "10.0.0.1" 1 HW)
    as (_ & H & _).
  - intros w Hw. vm_compute in Hw. injection Hw as <-. simpl. lia.
  - apply H. reflexivity.
Defined.

(** ** Where stored windows come from *)

Lemma run_op_origin (this : Config) (o : Op) (s : gmap string WindowState)
    k w :
  (run_op this o s).2 !! k = Some w →
  (∃ w0, s !! k = Some w0 ∧ windowStart w0 = windowStart w) ∨
  (∃ user ip, o = OpCheckLimit user ip (windowStart w) ∧ getKey user ip = k).
Proof.
  destruct o as [user ip now|user ip now|user ip|now]; cbn [run_op]; intros Hk.
  - rewrite bind_store in Hk. cbn [snd ret mret M_ret] in Hk.
    destruct (decide (k = getKey user ip)) as [->|Hne].
    + destruct (checkLimit_cases this s user ip now)
        as [(Hf & HL & Heq)|[(Hf & HL & Heq)|[(w0 & Hk0 & He & HL & Heq)|(w0 & Hk0 & He & HL & Heq)]]];
        rewrite Heq in Hk; cbn [snd] in Hk;
        rewrite ?lookup_insert_eq in Hk.
      * injection Hk as <-. right. by exists user, ip.
      * injection Hk as <-. right. by exists user, ip.
      * injection Hk as <-. left. by exists w0.
      * left. exists w. by split.
    + destruct (checkLimit_store this s user ip now) as (Hframe & _).
      rewrite Hframe in Hk by done. left. by exists w.
  - rewrite bind_store in Hk. cbn [snd ret mret M_ret] in Hk.
    rewrite getStatus_store in Hk. left. by exists w.
  - unfold reset in Hk. rewrite storage_delete_store in Hk.
    apply lookup_delete_Some in Hk as [_ Hk]. left. by exists w.
  - rewrite cleanup_lookup in Hk. destruct (s !! k) as [w0|]; [|discriminate].
    destruct (expired this now w0); [discriminate|]. injection Hk as <-.
    left. by exists w0.
Qed.

Lemma run_ops_origin (this : Config) (ops : list Op) :
  ∀ (s : gmap string WindowState) k w,
    (run_ops this ops s).2 !! k = Some w →
    (∃ w0, s !! k = Some w0 ∧ windowStart w0 = windowStart w) ∨
    (∃ user ip, OpCheckLimit user ip (windowStart w) ∈ ops ∧
                getKey user ip = k).
Proof.
  unfold run_ops. induction ops as [|o ops IH]; intros s k w Hk.
  - left. by exists w.
  - rewrite forEach_cons in Hk.
    destruct (IH _ _ _ Hk) as [(w1 & Hk1 & Hw1)|(user & ip & Hin & Hkey)].
    + destruct (run_op_origin this o s k w1 Hk1)
        as [(w0 & Hk0 & Hw0)|(user & ip & -> & Hkey)].
      * left. exists w0. split; [done|congruence].
      * right. exists user, ip. rewrite <- Hw1. split; [left|done].
    + right. exists user, ip. split; [by right|done].
Qed.

(** X12: entries are made by [checkLimit] alone.  Over every sequence of
    operations from an empty store, a key that has an entry was the key
    of some [checkLimit] call of the sequence, and the entry's window
    start is the clock value which that call read. *)
Theorem stored_window_origin (this : Config) (ops : list Op)
    (k : string) (w : WindowState) :
  (run_ops this ops ∅).2 !! k = Some w →
  ∃ user ip, OpCheckLimit user ip (windowStart w) ∈ ops ∧ getKey user ip = k.
Proof.
  intros Hk.
  destruct (run_ops_origin this ops ∅ k w Hk) as [(w0 & Hk0 & _)|H]; [|exact H].
  by rewrite lookup_empty in Hk0.
Qed.

Lemma stored_window_origin_witness :
  let ops := [OpGetStatus guest_user "10.0.0.1" 1;
              OpCheckLimit guest_user "10.0.0.1" 2;
              OpCheckLimit guest_user "10.0.0.1" 3] in
  (run_ops demo ops ∅).2 !! "ip:10.0.0.1" =
    Some {| count := 2; windowStart := 2 |} ∧
  ∃ user ip, OpCheckLimit user ip 2 ∈ ops ∧ getKey user ip = "ip:10.0.0.1".
Proof.
  intros ops.
  assert (Hk : (run_ops demo ops ∅).2 !! "ip:10.0.0.1" =
               Some {| count := 2; windowStart := 2 |})
    by (vm_compute; reflexivity).
  split; [exact Hk|].
  exact (stored_window_origin demo ops "ip:10.0.0.1" _ Hk).
Defined.

(** * Properties of the Express layer *)

(** ** The rate-limit middleware *)

Lemma str_or_nonempty (o : option string) (d : string) :
  d ≠ "" → str_or o d ≠ "".
Proof.
  intros Hd. destruct o as [t|]; simpl; [|done].
  by destruct (String.eqb_spec t "").
Qed.

Lemma rateLimitMiddleware_eq (this : Config) (req : Req) (now : Z)
    (s : gmap string WindowState) :
  let c := checkLimit this (req_user req) (clientIp req) now s in
  rateLimitMiddleware this req now s =
    (({| X_RateLimit_Limit := total c.1;
         X_RateLimit_Remaining := remaining c.1;
         X_RateLimit_Reset := ISOString (resetTime c.1) |},
      if allowed c.1 then Next (set_rateLimit req c.1)
      else Send {| res_status := 429;
                   res_body :=
                     TooManyBody
                       ("Too many requests. " ++ capitalize (userType c.1)
                        ++ " users can make " ++ pretty (total c.1)
                        ++ " requests per hour.")
                       (remaining c.1) (ISOString (resetTime c.1))
                       (userType c.1) |}),
     c.2).
Proof.
  intros c. subst c. unfold rateLimitMiddleware. rewrite bind_store.
  by destruct (allowed _).
Qed.

(** X13: for a request whose identity has a tier name that is not one
    the table inherits, the rate-limit middleware consumes quota exactly
    as [checkLimit] on the request's identity and resolved address; it
    hands the request on, with the result attached, exactly when that
    call admits; otherwise it answers 429, and then the body and the
    [X-RateLimit-Remaining] header both say 0 and, under a positive
    limit, the store is untouched.  The resolved address is never the
    empty string. *)
Theorem rateLimitMiddleware_spec (this : Config) (req : Req) (now : Z)
    (s : gmap string WindowState) :
  inherited_name (userTypeOf (req_user req)) = false →
  let r := (checkLimit this (req_user req) (clientIp req) now s).1 in
  let out := rateLimitMiddleware this req now s in
  clientIp req ≠ "" ∧
  out.2 = (checkLimit this (req_user req) (clientIp req) now s).2 ∧
  X_RateLimit_Limit out.1.1 = getLimit this (req_user req) ∧
  X_RateLimit_Remaining out.1.1 = remaining r ∧
  0 ≤ X_RateLimit_Remaining out.1.1 ∧
  (allowed r = true → out.1.2 = Next (set_rateLimit req r)) ∧
  (allowed r = false →
   X_RateLimit_Remaining out.1.1 = 0 ∧
   (0 < getLimit this (req_user req) → out.2 = s) ∧
   ∃ error, out.1.2 =
     Send {| res_status := 429;
             res_body := TooManyBody error 0 (ISOString (resetTime r))
                           (userTypeOf (req_user req)) |}).
Proof.
  intros _ r out. subst r out. rewrite rateLimitMiddleware_eq. cbn [fst snd].
  cbn [X_RateLimit_Limit X_RateLimit_Remaining].
  split; [by repeat apply str_or_nonempty|].
  split; [done|].
  destruct (checkLimit_cases this s (req_user req) (clientIp req) now)
    as [(Hf & HL & ->)|[(Hf & HL & ->)|[(w & Hk & He & HL & ->)|(w & Hk & He & HL & ->)]]];
    cbn [fst snd total userType remaining allowed resetTime].
  - repeat split; try (done || lia).
  - repeat split; try (done || lia). by eexists.
  - repeat split; try (done || lia).
  - repeat split; try (done || lia). by eexists.
Qed.

Lemma rateLimitMiddleware_witness_run :
  let req := mkReq (Some guest_identity) (Some "10.0.0.1") None None None
               (Str [72%N]) None in
  let s : gmap string WindowState :=
    {[ "ip:10.0.0.1" := {| count := 3; windowStart := 0 |} ]} in
  inherited_name (userTypeOf (req_user req)) = false ∧
  allowed (checkLimit demo (req_user req) (clientIp req) 5 s).1 = false ∧
  X_RateLimit_Remaining (rateLimitMiddleware demo req 5 s).1.1 = 0 ∧
  (rateLimitMiddleware demo req 5 s).2 = s.
Proof.
  intros req s.
  assert (Hn : inherited_name (userTypeOf (req_user req)) = false)
    by reflexivity.
  assert (Hd : allowed (checkLimit demo (req_user req) (clientIp req) 5 s).1 = false)
    by reflexivity.
  split; [exact Hn|]. split; [exact Hd|].
  destruct (rateLimitMiddleware_spec demo req 5 s Hn)
    as (_ & _ & _ & _ & _ & _ & H).
  destruct (H Hd) as (H0 & Hs & _).
  split; [exact H0 | apply Hs; reflexivity].
Defined.

(** The calls of [checkLimit] that a series of requests causes. *)
Lemma serve_all_checkAll (this : Config) (reqs : list (Req * Z)) :
  ∀ s : gmap string WindowState,
    (serve_all this reqs s).2 =
      (checkAll this
         ((λ q : Req * Z, (req_user q.1, clientIp q.1, q.2)) <$> reqs) s).2 ∧
    length (serve_all this reqs s).1 = length reqs ∧
    ∀ n o, (serve_all this reqs s).1 !! n = Some o →
      ∃ r, (checkAll this
              ((λ q : Req * Z, (req_user q.1, clientIp q.1, q.2)) <$> reqs)
              s).1 !! n = Some r ∧
           X_RateLimit_Limit o.1 = total r ∧
           X_RateLimit_Remaining o.1 = remaining r ∧
           passed o.2 = allowed r ∧
           sent_status o.2 = (if allowed r then None else Some 429).
Proof.
  unfold serve_all, checkAll.
  induction reqs as [|[req t] reqs IH]; intros s.
  - split; [done|]. split; [done|]. intros n o Hn. simpl in Hn.
    by rewrite lookup_nil in Hn.
  - rewrite fmap_cons, !mapM_cons. cbn [fst snd].
    rewrite rateLimitMiddleware_eq. cbn [fst snd].
    destruct (IH (checkLimit this (req_user req) (clientIp req) t s).2)
      as (Hst & Hlen & Hres).
    split; [exact Hst|]. split; [simpl; by rewrite Hlen|].
    intros [|n] o Hn.
    + injection Hn as <-. eexists. split; [reflexivity|]. cbn.
      by destruct (allowed _).
    + by apply Hres.
Qed.

(** A first call on an empty store and later calls inside its window. *)
Lemma checkAll_fresh_run (this : Config) user ip (t1 : Z) (ts : list Z) :
  Forall (λ t, t - t1 < windowSize this) ts →
  ∀ (n : nat) r,
    (checkAll this (requests user ip (t1 :: ts)) ∅).1 !! n = Some r →
    total r = getLimit this user ∧
    allowed r = bool_decide (Z.of_nat n < getLimit this user) ∧
    remaining r =
      (if allowed r then getLimit this user - (Z.of_nat n + 1) else 0).
Proof.
  intros Hwin.
  unfold requests. rewrite fmap_cons. fold (requests user ip ts).
  unfold checkAll. rewrite mapM_cons. cbn [fst snd].
  fold (checkAll this (requests user ip ts)).
  destruct (checkLimit_cases this ∅ user ip t1)
    as [(Hf & HL & ->)|[(Hf & HL & ->)|[(w & Hk & _)|(w & Hk & _)]]];
    try (by rewrite lookup_empty in Hk); cbn [fst snd].
  - set (w1 := {| count := 1; windowStart := t1 |}).
    destruct (checkAll_open_window this (getKey user ip) (getLimit this user)
                (requests user ip ts) (<[getKey user ip := w1]> ∅) w1)
      as (Hres & _); [apply lookup_insert_eq | by apply requests_hits |].
    intros [|n] r Hn.
    + injection Hn as <-. cbn. rewrite bool_decide_eq_true_2 by lia.
      repeat split; lia.
    + destruct (Hres n r Hn) as (Ha & Hrem & Ht & _). cbn [count w1] in Ha, Hrem.
      split; [done|]. split.
      * rewrite Ha. apply bool_decide_ext. lia.
      * rewrite Hrem. destruct (allowed r); lia.
  - set (w0 := {| count := 0; windowStart := t1 |}).
    destruct (checkAll_open_window this (getKey user ip) (getLimit this user)
                (requests user ip ts) (<[getKey user ip := w0]> ∅) w0)
      as (Hres & _); [apply lookup_insert_eq | by apply requests_hits |].
    intros [|n] r Hn.
    + injection Hn as <-. cbn. rewrite bool_decide_eq_false_2 by lia. done.
    + destruct (Hres n r Hn) as (Ha & Hrem & Ht & _). cbn [count w0] in Ha, Hrem.
      rewrite bool_decide_eq_false_2 in Ha by lia. rewrite Ha in Hrem.
      rewrite Ha, Hrem, bool_decide_eq_false_2 by lia. done.
Qed.

(** X14: requests of one identity from one resolved address, the first
    on an empty store and the others inside its window, whatever else
    they carry: with [L] the identity's limit, the middleware hands on
    request number [n + 1] while [n + 1 <= L], with
    [X-RateLimit-Remaining = L - (n + 1)], and answers every later one
    with 429 and [X-RateLimit-Remaining = 0]. *)
Theorem serve_all_quota (this : Config) (user : option User) (ip : string)
    (q1 : Req) (t1 : Z) (qs : list (Req * Z)) :
  Forall (λ q : Req * Z, req_user q.1 = user ∧ clientIp q.1 = ip ∧
                         q.2 - t1 < windowSize this) qs →
  req_user q1 = user → clientIp q1 = ip →
  let L := getLimit this user in
  let out := (serve_all this ((q1, t1) :: qs) ∅).1 in
  length out = S (length qs) ∧
  ∀ (n : nat) o, out !! n = Some o →
    X_RateLimit_Limit o.1 = L ∧
    (Z.of_nat n < L →
     passed o.2 = true ∧ X_RateLimit_Remaining o.1 = L - (Z.of_nat n + 1)) ∧
    (L ≤ Z.of_nat n →
     sent_status o.2 = Some 429 ∧ X_RateLimit_Remaining o.1 = 0).
Proof.
  intros Hall Hu Hip L out. subst L out.
  destruct (serve_all_checkAll this ((q1, t1) :: qs) ∅) as (_ & Hlen & Hres).
  split; [exact Hlen|].
  intros n o Hn. destruct (Hres n o Hn) as (r & Hr & Hlim & Hrem & Hp & Hs).
  assert (Hcalls : (λ q : Req * Z, (req_user q.1, clientIp q.1, q.2)) <$>
                     ((q1, t1) :: qs) = requests user ip (t1 :: qs.*2)).
  { unfold requests. rewrite !fmap_cons. cbn [fst snd]. rewrite Hu, Hip.
    f_equal. rewrite <- list_fmap_compose. apply Forall_fmap_ext_1.
    eapply Forall_impl; [exact Hall|].
    intros [q t] (Hq & Hi & _). simpl in *. by rewrite Hq, Hi. }
  rewrite Hcalls in Hr.
  assert (Hwin : Forall (λ t, t - t1 < windowSize this) qs.*2).
  { apply Forall_fmap. eapply Forall_impl; [exact Hall|]. by intros q (_ & _ & ?). }
  destruct (checkAll_fresh_run this user ip t1 qs.*2 Hwin n r Hr)
    as (Ht & Ha & Hre).
  rewrite Hlim, Hrem, Hp, Hs, Hre, Ha, Ht.
  split; [done|]. split; intros Hcmp.
  - by rewrite bool_decide_eq_true_2.
  - by rewrite bool_decide_eq_false_2 by lia.
Qed.

Lemma serve_all_quota_witness :
  let q (m : list N) := mkReq (Some guest_identity) (Some "10.0.0.1") None
                          None None (Str m) None in
  let qs := [(q [66%N], 1); (q [67%N], 2); (q [68%N], 3)] in
  Forall (λ p : Req * Z, req_user p.1 = Some guest_identity ∧
                         clientIp p.1 = "10.0.0.1" ∧
                         p.2 - 0 < windowSize demo) qs ∧
  ∀ (n : nat) o,
    (serve_all demo ((q [65%N], 0) :: qs) ∅).1 !! n = Some o →
    3 ≤ Z.of_nat n → sent_status o.2 = Some 429.
Proof.
  intros q qs.
  assert (H : Forall (λ p : Req * Z, req_user p.1 = Some guest_identity ∧
                                     clientIp p.1 = "10.0.0.1" ∧
                                     p.2 - 0 < windowSize demo) qs)
    by (repeat constructor).
  split; [exact H|].
  intros n o Hn Hge.
  destruct (serve_all_quota demo (Some guest_identity) "10.0.0.1"
              (q [65%N]) 0 qs H eq_refl eq_refl) as (_ & Hout).
  destruct (Hout n o Hn) as (_ & _ & Hdeny).
  apply Hdeny. exact Hge.
Defined.

(** ** Message validation *)

Lemma trimStart_nil (s : list N) :
  trimStart s = [] ↔ Forall (λ c, is_white_space c = true) s.
Proof.
  induction s as [|c s IH]; simpl; [by split|].
  destruct (is_white_space c) eqn:Hc.
  - rewrite IH. split; [by constructor | by inversion 1].
  - split; [discriminate|]. inversion 1; congruence.
Qed.

Lemma trimStart_Forall (s : list N) :
  Forall (λ c, is_white_space c = true) (trimStart s) ↔
  Forall (λ c, is_white_space c = true) s.
Proof.
  induction s as [|c s IH]; simpl; [done|].
  destruct (is_white_space c) eqn:Hc; [|done].
  rewrite IH. split; [by constructor | by inversion 1].
Qed.

Lemma trim_nil (s : list N) :
  length (trim s) = 0%nat ↔ Forall (λ c, is_white_space c = true) s.
Proof.
  unfold trim, trimEnd. rewrite length_reverse, length_zero_iff_nil.
  by rewrite trimStart_nil, Forall_reverse, trimStart_Forall.
Qed.

Lemma Exists_not_white_space (s : list N) :
  Exists (λ c, is_white_space c = false) s ↔
  ¬ Forall (λ c, is_white_space c = true) s.
Proof.
  induction s as [|c s IH].
  - split; [inversion 1 | intros H; by destruct H].
  - rewrite Exists_cons, Forall_cons, IH.
    destruct (is_white_space c); intuition congruence.
Qed.

Lemma blank_iff (s : list N) :
  (length s =? 0)%nat || (length (trim s) =? 0)%nat = false ↔
  Exists (λ c, is_white_space c = false) s.
Proof.
  rewrite orb_false_iff, !Nat.eqb_neq, trim_nil, Exists_not_white_space.
  split; [by intros [_ ?]|]. intros Hn. split; [|done].
  intros Hl. apply Hn. apply length_zero_iff_nil in Hl. by subst.
Qed.

(** X15: [validateMessage] hands the request on, unchanged, exactly when
    the message is a string with at least one code unit that is not
    white space and with at most 1000 code units (1000 itself is
    accepted); every other request is answered 400, with the
    too-long message exactly for a non-blank string of more than 1000
    code units. *)
Theorem validateMessage_spec (req : Req) :
  (passed (validateMessage req) = true ↔
   ∃ s, req_message req = Str s ∧
        Exists (λ c, is_white_space c = false) s ∧ (length s ≤ 1000)%nat) ∧
  (∀ req', validateMessage req = Next req' → req' = req) ∧
  (∀ res, validateMessage req = Send res →
          res_status res = 400 ∧
          (res = message_too_long ↔
           ∃ s, req_message req = Str s ∧
                Exists (λ c, is_white_space c = false) s ∧
                (1000 < length s)%nat)).
Proof.
  unfold validateMessage. destruct (req_message req) as [|s] eqn:Hm.
  - split; [|split].
    + split; [discriminate|]. by intros (s & ? & _).
    + discriminate.
    + intros res [= <-]. split; [done|]. split; [discriminate|].
      by intros (s & ? & _).
  - destruct ((length s =? 0)%nat || (length (trim s) =? 0)%nat) eqn:Hb.
    + assert (Hne : ¬ Exists (λ c, is_white_space c = false) s).
      { intros He. apply blank_iff in He. congruence. }
      split; [|split].
      * split; [discriminate|]. by intros (s' & [= <-] & ? & _).
      * discriminate.
      * intros res [= <-]. split; [done|]. split; [discriminate|].
        by intros (s' & [= <-] & ? & _).
    + apply blank_iff in Hb.
      destruct (1000 <? length s)%nat eqn:Hlen.
      * apply Nat.ltb_lt in Hlen. split; [|split].
        -- split; [discriminate|]. intros (s' & [= <-] & _ & ?). lia.
        -- discriminate.
        -- intros res [= <-]. split; [done|]. split; [|done].
           intros _. by exists s.
      * apply Nat.ltb_ge in Hlen. split; [|split].
        -- split; [|done]. intros _. by exists s.
        -- by intros req' [= <-].
        -- discriminate.
Qed.

Lemma validateMessage_spec_witness :
  let req := mkReq None None None None None (Str (replicate 1000 65%N)) None in
  (∃ s, req_message req = Str s ∧
        Exists (λ c, is_white_space c = false) s ∧ (length s ≤ 1000)%nat) ∧
  passed (validateMessage req) = true.
Proof.
  intros req.
  assert (H : ∃ s, req_message req = Str s ∧
                   Exists (λ c, is_white_space c = false) s ∧
                   (length s ≤ 1000)%nat).
  { exists (replicate 1000 65%N). split; [reflexivity|]. split.
    - by left.
    - by rewrite length_replicate. }
  split; [exact H|].
  exact (proj2 (proj1 (validateMessage_spec req)) H).
Defined.

(** ** The bearer token *)

Lemma split_space_cons (s : string) : ∃ h t, split_space s = h :: t.
Proof.
  induction s as [|c s (h & t & IH)]; simpl; [by eexists _, _|].
  destruct (Ascii.eqb c Ascii.Space); [by eexists _, _|].
  rewrite IH. by eexists _, _.
Qed.

Lemma split_space_no_space (s : string) :
  no_space s = true → split_space s = [s].
Proof.
  induction s as [|c s IH]; simpl; [done|].
  destruct (Ascii.eqb c Ascii.Space); simpl; [discriminate|].
  intros Hs. by rewrite IH.
Qed.

Lemma split_space_app (a b : string) :
  no_space a = true →
  split_space (a ++ " " ++ b) = a :: split_space b.
Proof.
  induction a as [|c a IH]; [done|].
  intros Hs. apply andb_true_iff in Hs as [Hc Hs].
  apply negb_true_iff in Hc.
  change (String c a ++ " " ++ b) with (String c (a ++ " " ++ b)).
  cbn [split_space]. by rewrite Hc, IH.
Qed.

(** X16: the token is the second of the fields that single spaces cut
    the header into.  A header [<scheme> <token>], with or without
    further fields, yields the token whatever the scheme word is; no
    header, a header without a space, and a header with two spaces
    after the scheme yield no token. *)
Theorem bearer_token_spec (scheme token rest : string) :
  no_space scheme = true →
  no_space token = true →
  token ≠ "" →
  bearer_token (Some (scheme ++ " " ++ token)) = Some token ∧
  bearer_token (Some (scheme ++ " " ++ token ++ " " ++ rest)) = Some token ∧
  bearer_token (Some (scheme ++ " " ++ " " ++ rest)) = None ∧
  bearer_token (Some scheme) = None ∧
  bearer_token None = None.
Proof.
  intros Hs Ht Hne.
  assert (Hnb : String.eqb token "" = false) by by apply String.eqb_neq.
  unfold bearer_token.
  split; [|split; [|split; [|split]]].
  - rewrite split_space_app, split_space_no_space by done. simpl. by rewrite Hnb.
  - rewrite !split_space_app by done. simpl. by rewrite Hnb.
  - rewrite split_space_app by done.
    change (" " ++ rest) with ("" ++ " " ++ rest).
    by rewrite split_space_app.
  - by rewrite split_space_no_space.
  - done.
Qed.

Lemma bearer_token_spec_witness :
  no_space "Bearer" = true ∧ no_space "abc.def.ghi" = true ∧
  "abc.def.ghi" ≠ "" ∧
  bearer_token (Some ("Bearer" ++ " " ++ "abc.def.ghi")) = Some "abc.def.ghi" ∧
  bearer_token (Some ("Bearer" ++ " " ++ " " ++ "abc.def.ghi")) = None.
Proof.
  assert (H1 : no_space "Bearer" = true) by reflexivity.
  assert (H2 : no_space "abc.def.ghi" = true) by reflexivity.
  assert (H3 : "abc.def.ghi" ≠ "") by discriminate.
  split; [exact H1|]. split; [exact H2|]. split; [exact H3|].
  destruct (bearer_token_spec "Bearer" "abc.def.ghi" "abc.def.ghi" H1 H2 H3)
    as (Ha & _ & Hb & _).
  split; [exact Ha | exact Hb].
Defined.

(** ** Authentication *)

Lemma getLimit_guest_identity (this : Config) :
  getLimit this (Some guest_identity) = guest (limits this).
Proof.
  unfold getLimit. cbn. by destruct (Z.eqb_spec (guest (limits this)) 0).
Qed.

(** X17: [authenticateToken] never rejects a request that carries no
    token: it marks it as a guest, which the limiter keys by address
    under the guest limit.  It answers 403 exactly when there is a token
    and [jwt.verify] refuses it; otherwise it hands the request on with
    the verified identity, and changes nothing else of the request. *)
Theorem authenticateToken_spec (verify : string → option User) (req : Req) :
  (sent_status (authenticateToken verify req) = Some 403 ↔
   ∃ t, bearer_token (req_authorization req) = Some t ∧ verify t = None) ∧
  (∀ res, authenticateToken verify req = Send res → res = invalid_token) ∧
  (∀ req', authenticateToken verify req = Next req' →
     ∃ u, req' = set_user req u ∧ clientIp req' = clientIp req ∧
          ((bearer_token (req_authorization req) = None ∧ u = guest_identity) ∨
           ∃ t, bearer_token (req_authorization req) = Some t ∧
                verify t = Some u)) ∧
  (bearer_token (req_authorization req) = None →
   authenticateToken verify req = Next (set_user req guest_identity) ∧
   getKey (Some guest_identity) (clientIp req) = "ip:" ++ clientIp req ∧
   ∀ this, getLimit this (Some guest_identity) = guest (limits this)).
Proof.
  unfold authenticateToken.
  destruct (bearer_token (req_authorization req)) as [t|] eqn:Hb.
  - destruct (verify t) as [u|] eqn:Hv.
    + split; [|split; [|split]].
      * split; [discriminate|]. intros (t' & [= <-] & ?). congruence.
      * discriminate.
      * intros req' [= <-]. exists u. split; [done|]. split; [done|].
        right. by exists t.
      * discriminate.
    + split; [|split; [|split]].
      * split; [|done]. intros _. by exists t.
      * by intros res [= <-].
      * discriminate.
      * discriminate.
  - split; [|split; [|split]].
    + split; [discriminate|]. by intros (t & ? & _).
    + discriminate.
    + intros req' [= <-]. exists guest_identity. split; [done|]. split; [done|].
      by left.
    + intros _. split; [done|]. split; [done|].
      apply getLimit_guest_identity.
Qed.

Lemma authenticateToken_spec_witness :
  let req := mkReq None (Some "10.0.0.1") None None (Some "Bearer") NotAString
               None in
  bearer_token (req_authorization req) = None ∧
  authenticateToken (λ _, None) req = Next (set_user req guest_identity).
Proof.
  intros req.
  assert (H : bearer_token (req_authorization req) = None) by reflexivity.
  split; [exact H|].
  destruct (authenticateToken_spec (λ _, None) req) as (_ & _ & _ & Hg).
  exact (proj1 (Hg H)).
Defined.

(** ** The chat route *)

Lemma validateMessage_set_user (req : Req) (u : User) :
  validateMessage (set_user req u) =
    match validateMessage req with
    | Next _ => Next (set_user req u)
    | Send res => Send res
    end.
Proof.
  unfold validateMessage. cbn [req_message set_user].
  destruct (req_message req) as [|m]; [done|].
  destruct (_ || _); [done|]. by destruct (_ <? _)%nat.
Qed.

Lemma authenticateToken_cases (verify : string → option User) (req : Req) :
  ((∃ t, bearer_token (req_authorization req) = Some t ∧ verify t = None) ∧
   authenticateToken verify req = Send invalid_token) ∨
  (¬ (∃ t, bearer_token (req_authorization req) = Some t ∧ verify t = None) ∧
   ∃ u, authenticateToken verify req = Next (set_user req u)).
Proof.
  unfold authenticateToken.
  destruct (bearer_token (req_authorization req)) as [t|] eqn:Hb.
  - destruct (verify t) as [u|] eqn:Hv.
    + right. split; [|by exists u]. intros (t' & [= <-] & ?). congruence.
    + left. split; [by exists t | done].
  - right. split; [|by eexists]. by intros (t & ? & _).
Qed.

Lemma validateMessage_cases (req : Req) :
  validateMessage req = Next req ∨
  ∃ res, validateMessage req = Send res ∧ res_status res = 400.
Proof.
  unfold validateMessage. destruct (req_message req) as [|m]; [right; by eexists|].
  destruct (_ || _); [right; by eexists|].
  destruct (_ <? _)%nat; [right; by eexists | by left].
Qed.

(** X18: on [POST /api/chat] a request whose token is refused is
    answered 403 whatever its message, and a request with an acceptable
    token (or none) and an unacceptable message is answered 400; neither
    touches the store or gets rate-limit headers, so neither consumes
    quota.  Every other request is handled by the rate-limit middleware
    under the authenticated identity, and the handler is entered only
    with an admitted [req.rateLimit] attached. *)
Theorem chat_route_spec (verify : string → option User) (this : Config)
    (req : Req) (now : Z) (s : gmap string WindowState) :
  let out := chat_route verify this req now s in
  let refused := ∃ t, bearer_token (req_authorization req) = Some t ∧
                      verify t = None in
  (refused → out = (None, Send invalid_token, s)) ∧
  (¬ refused → passed (validateMessage req) = false →
   sent_status out.1.2 = Some 400 ∧ out.1.1 = None ∧ out.2 = s) ∧
  (¬ refused → passed (validateMessage req) = true →
   ∃ u, authenticateToken verify req = Next (set_user req u) ∧
        out.1.1 = Some (rateLimitMiddleware this (set_user req u) now s).1.1 ∧
        out.1.2 = (rateLimitMiddleware this (set_user req u) now s).1.2 ∧
        out.2 = (checkLimit this (Some u) (clientIp req) now s).2) ∧
  (∀ req', out.1.2 = Next req' →
     ∃ r, req_rateLimit req' = Some r ∧ allowed r = true ∧
          req_message req' = req_message req) ∧
  (∀ st, sent_status out.1.2 = Some st → st = 403 ∨ st = 400 ∨ st = 429).
Proof.
  intros out refused. subst out refused. unfold chat_route.
  destruct (authenticateToken_cases verify req) as [[Hr ->]|[Hok [u ->]]].
  - cbn [fst snd ret mret M_ret sent_status invalid_token res_status].
    split; [done|]. split; [done|]. split; [done|].
    split; [discriminate|]. intros st [= <-]. auto.
  - rewrite validateMessage_set_user.
    destruct (validateMessage_cases req) as [->|(res & -> & Hst)].
    + rewrite bind_store.
      rewrite rateLimitMiddleware_eq. cbn [fst snd ret mret M_ret req_user set_user].
      split; [done|]. split; [discriminate|]. split; [|split].
      * intros _ _. exists u. by rewrite rateLimitMiddleware_eq.
      * destruct (allowed _) eqn:Hal; [|discriminate].
        intros req' [= <-]. eexists. split; [reflexivity|]. by split.
      * destruct (allowed _); [discriminate|]. intros st [= <-]. auto.
    + cbn [fst snd ret mret M_ret sent_status passed]. rewrite Hst.
      split; [done|]. split; [done|]. split; [discriminate|].
      split; [discriminate|]. intros st [= <-]. auto.
Qed.

Lemma chat_route_spec_witness :
  let req := mkReq None (Some "10.0.0.1") None None None (Str [32%N; 9%N])
               None in
  let s : gmap string WindowState :=
    {[ "ip:10.0.0.1" := {| count := 1; windowStart := 0 |} ]} in
  (¬ ∃ t, bearer_token (req_authorization req) = Some t ∧
          (λ _ : string, @None User) t = None) ∧
  passed (validateMessage req) = false ∧
  sent_status (chat_route (λ _, None) demo req 5 s).1.2 = Some 400 ∧
  (chat_route (λ _, None) demo req 5 s).2 = s.
Proof.
  intros req s.
  assert (Hok : ¬ ∃ t, bearer_token (req_authorization req) = Some t ∧
                       (λ _ : string, @None User) t = None).
  { intros (t & Hb & _). discriminate Hb. }
  assert (Hbad : passed (validateMessage req) = false) by reflexivity.
  split; [exact Hok|]. split; [exact Hbad|].
  destruct (chat_route_spec (λ _, None) demo req 5 s) as (_ & H & _).
  destruct (H Hok Hbad) as (Hst & _ & Hs).
  split; [exact Hst | exact Hs].
Defined.

(** ** The status route *)

Lemma getStatus_fields (this : Config) (s : gmap string WindowState)
    user ip now :
  st_total (getStatus this user ip now s).1 = getLimit this user ∧
  st_userType (getStatus this user ip now s).1 = userTypeOf user ∧
  (0 < windowSize this → now < st_resetTime (getStatus this user ip now s).1) ∧
  (0 ≤ getLimit this user →
   0 ≤ st_remaining (getStatus this user ip now s).1 ≤ getLimit this user ∨
   ∃ w, s !! getKey user ip = Some w ∧ count w < 0).
Proof.
  unfold getStatus. rewrite bind_store. unfold storage_get; cbn [fst snd].
  destruct (s !! getKey user ip) as [w|] eqn:Hk.
  - destruct (expired this now w) eqn:He; cbn.
    + split; [done|]. split; [done|]. split; [lia|]. intros ?. left. lia.
    + apply expired_false in He.
      split; [done|]. split; [done|]. split; [lia|]. intros ?.
      destruct (decide (count w < 0)); [right; by exists w | left; lia].
  - cbn. split; [done|]. split; [done|]. split; [lia|]. intros ?. left. lia.
Qed.

(** X19: [GET /api/status] never writes to the store.  A refused token
    is answered 403; every other request is answered 200 with the
    limit and tier of the authenticated identity and what [getStatus]
    reports for its key; when the window size is positive,
    [reset_in_ms] exceeds minus the time that passed between the two
    clock readings of the handler, so it is positive when they agree. *)
Theorem status_route_spec (verify : string → option User) (this : Config)
    (req : Req) (now now' : Z) (s : gmap string WindowState) :
  let out := status_route verify this req now now' s in
  let refused := ∃ t, bearer_token (req_authorization req) = Some t ∧
                      verify t = None in
  out.2 = s ∧
  (refused → out.1 = invalid_token) ∧
  (¬ refused →
   ∃ u remaining_requests reset_ms,
     authenticateToken verify req = Next (set_user req u) ∧
     remaining_requests =
       st_remaining (getStatus this (Some u) (clientIp req) now s).1 ∧
     reset_ms = st_resetTime (getStatus this (Some u) (clientIp req) now s).1 ∧
     out.1 = {| res_status := 200;
                res_body :=
                  StatusBody remaining_requests (getLimit this (Some u))
                    (userTypeOf (Some u)) (ISOString reset_ms)
                    (reset_ms - now') |} ∧
     (0 < windowSize this → now - now' < reset_ms - now')).
Proof.
  intros out refused. subst out refused. unfold status_route.
  destruct (authenticateToken_cases verify req) as [[Hr ->]|[Hok [u ->]]].
  - cbn [fst snd ret mret M_ret]. by repeat split.
  - rewrite bind_store. cbn [fst snd ret mret M_ret req_user set_user].
    rewrite getStatus_store.
    destruct (getStatus_fields this s (Some u) (clientIp req) now)
      as (Ht & Hu & Hr & _).
    split; [done|]. split; [done|]. intros _.
    eexists u, _, _. split; [done|]. split; [done|]. split; [done|].
    change (clientIp (set_user req u)) with (clientIp req).
    rewrite Ht, Hu. split; [done|]. intros HW. specialize (Hr HW). lia.
Qed.

Lemma status_route_spec_witness :
  let req := mkReq None (Some "10.0.0.1") None None None NotAString None in
  let s : gmap string WindowState :=
    {[ "ip:10.0.0.1" := {| count := 1; windowStart := 0 |} ]} in
  (¬ ∃ t, bearer_token (req_authorization req) = Some t ∧
          (λ _ : string, @None User) t = None) ∧
  (status_route (λ _, None) demo req 5 7 s).2 = s.
Proof.
  intros req s.
  assert (Hok : ¬ ∃ t, bearer_token (req_authorization req) = Some t ∧
                       (λ _ : string, @None User) t = None).
  { intros (t & Hb & _). discriminate Hb. }
  split; [exact Hok|].
  exact (proj1 (status_route_spec (λ _, None) demo req 5 7 s)).
Defined.

(** ** Accounts *)

Section AccountProperties.

Variable sign : Z → Z → string → string → string.
Variable hash : string → string.
Variable compare : string → string → bool.
Variable test_env : bool.

Lemma missing_false (o : option string) :
  missing o = false ↔ ∃ t, o = Some t ∧ t ≠ "".
Proof.
  destruct o as [t|]; simpl.
  - rewrite String.eqb_neq. split; [by exists t | by intros (? & [= <-] & ?)].
  - split; [discriminate | by intros (? & ? & _)].
Qed.

Lemma find_user_Some (users : list Account) u a :
  find_user users u = Some a → a ∈ users ∧ acc_username a = u.
Proof.
  unfold find_user. intros H. apply find_some in H as [Hin He].
  apply String.eqb_eq in He. split; [by apply list_elem_of_In | done].
Qed.

Lemma find_user_None (users : list Account) u :
  find_user users u = None ↔ u ∉ acc_username <$> users.
Proof.
  unfold find_user. induction users as [|a users IH]; simpl.
  - split; [intros _; apply not_elem_of_nil | done].
  - rewrite not_elem_of_cons. destruct (String.eqb_spec (acc_username a) u).
    + split; [discriminate | by intros [? _]].
    + rewrite IH. split; [by split | by intros [_ ?]].
Qed.

Lemma find_user_snoc (users : list Account) u a :
  find_user users u = None → acc_username a = u →
  find_user (users ++ [a])%list u = Some a.
Proof.
  unfold find_user. intros Hn Hu.
  induction users as [|b users IH]; simpl in *.
  - by rewrite Hu, String.eqb_refl.
  - destruct (String.eqb (acc_username b) u); [discriminate | by apply IH].
Qed.

Lemma register_check_None (users : list Account) username password :
  register_check users username password = None ↔
  ∃ u p, username = Some u ∧ u ≠ "" ∧ password = Some p ∧ p ≠ "" ∧
         find_user users u = None.
Proof.
  unfold register_check.
  destruct (missing username || missing password) eqn:Hm.
  - split; [discriminate|]. intros (u & p & -> & Hu & -> & Hp & _).
    apply orb_true_iff in Hm as [Hm|Hm]; simpl in Hm;
      apply String.eqb_eq in Hm; done.
  - apply orb_false_iff in Hm as [Hu Hp].
    apply missing_false in Hu as (u & -> & Hu).
    apply missing_false in Hp as (p & -> & Hp).
    change (default "" (Some u)) with u.
    destruct (find_user users u) eqn:Hf.
    + split; [discriminate|]. intros (u' & p' & [= <-] & _ & _ & _ & ?).
      congruence.
    + split; [|done]. intros _. by exists u, p.
Qed.

Lemma find_user_app_l (users more : list Account) u a :
  find_user users u = Some a → find_user (users ++ more)%list u = Some a.
Proof.
  unfold find_user. induction users as [|b users IH]; simpl; [discriminate|].
  by destruct (String.eqb (acc_username b) u).
Qed.

(** What a push keeps: ids by position, names not empty, known tiers. *)
Lemma register_commit_invariant (now : Z) (users : list Account) u password type :
  u ≠ "" →
  (∀ (i : nat) a, users !! i = Some a → acc_id a = Z.of_nat i + 1) →
  Forall (λ a, acc_username a ≠ "" ∧
               (acc_type a = "free" ∨ acc_type a = "premium")) users →
  let users' := (register_commit sign hash now users (Some u) password type).2 in
  (∀ (i : nat) a, users' !! i = Some a → acc_id a = Z.of_nat i + 1) ∧
  Forall (λ a, acc_username a ≠ "" ∧
               (acc_type a = "free" ∨ acc_type a = "premium")) users' ∧
  users `prefix_of` users'.
Proof.
  intros Hu Hid Hall users'. subst users'. unfold register_commit. cbn [snd].
  change (default "" (Some u)) with u.
  split; [|split].
  - intros i a Hi. apply lookup_app_Some in Hi as [Hi|[Hge Hi]]; [by apply Hid|].
    apply list_lookup_singleton_Some in Hi as [Hi <-]. cbn. lia.
  - apply Forall_app. split; [done|]. apply Forall_singleton. cbn.
    split; [done|]. unfold account_type. destruct type as [t|]; [|by left].
    destruct (String.eqb_spec t "free") as [->|]; [by left|].
    destruct (String.eqb_spec t "premium") as [->|]; [by right | by left].
  - by apply prefix_app_r.
Qed.

Lemma demo_users_invariant :
  (∀ (i : nat) a, demo_users !! i = Some a → acc_id a = Z.of_nat i + 1) ∧
  Forall (λ a, acc_username a ≠ "" ∧
               (acc_type a = "free" ∨ acc_type a = "premium")) demo_users.
Proof.
  split.
  - intros [|[|i]] a [= <-]; reflexivity.
  - unfold demo_users. constructor; [split; [discriminate | by left]|].
    constructor; [split; [discriminate | by right] | constructor].
Qed.

Lemma registered_keeps (users : list Account) :
  registered sign hash users →
  demo_users `prefix_of` users ∧
  (∀ (i : nat) a, users !! i = Some a → acc_id a = Z.of_nat i + 1) ∧
  Forall (λ a, acc_username a ≠ "" ∧
               (acc_type a = "free" ∨ acc_type a = "premium")) users.
Proof.
  induction 1 as [|now users0 users username password type _ _ _ IH _ Hc].
  - split; [done|]. apply demo_users_invariant.
  - destruct IH as (Hpre & Hid & Hall).
    apply register_check_None in Hc as (u & p & -> & Hu & _).
    destruct (register_commit_invariant now users u password type Hu Hid Hall)
      as (Hid' & Hall' & Hpre').
    split; [by etrans | by split].
Qed.

Lemma register_registered (now : Z) (users : list Account)
    username password type :
  registered sign hash users →
  registered sign hash (register sign hash now users username password type).2.
Proof.
  intros Hr. unfold register.
  destruct (register_check users username password) eqn:Hc; [done|].
  by apply (registered_commit sign hash now users users).
Qed.

Lemma register_NoDup (now : Z) (users : list Account)
    username password type :
  NoDup (acc_username <$> users) →
  NoDup (acc_username <$>
           (register sign hash now users username password type).2).
Proof.
  intros Hnd. unfold register.
  destruct (register_check users username password) eqn:Hc; [done|].
  apply register_check_None in Hc as (u & p & -> & Hu & -> & Hp & Hf).
  unfold register_commit. cbn [snd]. change (default "" (Some u)) with u.
  rewrite fmap_app. apply NoDup_app. split; [done|]. split.
  - intros x Hx Hx'. apply list_elem_of_singleton in Hx'. subst x.
    by apply find_user_None in Hf.
  - apply NoDup_singleton.
Qed.

End AccountProperties.

(** X20: however the turns of registration requests interleave, the
    user list keeps the two demo accounts at its head, ids equal to the
    position in the list (1, 2, 3, ...), user names not empty and tiers
    ["free"] or ["premium"]; so the identity of any account is always
    keyed ["user:<id>"] by the limiter, never by address. *)
Theorem registered_invariant (sign : Z → Z → string → string → string)
    (hash : string → string) (users : list Account) :
  registered sign hash users →
  demo_users `prefix_of` users ∧
  (∀ (i : nat) a, users !! i = Some a → acc_id a = Z.of_nat i + 1) ∧
  (∀ a, a ∈ users →
        acc_username a ≠ "" ∧
        (acc_type a = "free" ∨ acc_type a = "premium") ∧
        ∀ ip, getKey (Some (account_identity a)) ip =
              "user:" ++ pretty (acc_id a)).
Proof.
  intros Hr. destruct (registered_keeps sign hash users Hr) as (Hpre & Hid & Hall).
  split; [done|]. split; [done|].
  intros a Ha. rewrite Forall_forall in Hall. destruct (Hall a Ha) as [Hn Ht].
  split; [done|]. split; [done|]. intros ip.
  apply list_elem_of_lookup in Ha as [i Hi]. pose proof (Hid i a Hi) as Hi'.
  unfold getKey, account_identity. cbn [user_type user_id truthy_id id_to_string].
  rewrite bool_decide_eq_false_2 by (destruct Ht as [-> | ->]; discriminate).
  destruct (Z.eqb_spec (acc_id a) 0); [lia | done].
Qed.

Lemma registered_invariant_witness :
  let sign := (λ (now i : Z) (u t : string), u ++ "." ++ pretty now) in
  let hash := (λ p : string, "h:" ++ p) in
  let users := (register_commit sign hash 7 demo_users (Some "carol")
                  (Some "pw") (Some "admin")).2 in
  registered sign hash users ∧
  ∀ (i : nat) a, users !! i = Some a → acc_id a = Z.of_nat i + 1.
Proof.
  intros sign hash users.
  assert (Hr : registered sign hash users).
  { apply (registered_commit sign hash 7 demo_users demo_users);
      [apply registered_init | apply registered_init | reflexivity | reflexivity]. }
  split; [exact Hr|].
  exact (proj1 (proj2 (registered_invariant sign hash users Hr))).
Defined.

(** X23: when registrations are handled one after the other, user names
    stay distinct as well (a name that is taken is refused with 409). *)
Theorem register_all_distinct (sign : Z → Z → string → string → string)
    (hash : string → string)
    (rs : list (option string * option string * option string * Z)) :
  registered sign hash (register_all sign hash demo_users rs) ∧
  NoDup (acc_username <$> register_all sign hash demo_users rs).
Proof.
  assert (Hgen : ∀ users,
            registered sign hash users → NoDup (acc_username <$> users) →
            registered sign hash (register_all sign hash users rs) ∧
            NoDup (acc_username <$> register_all sign hash users rs)).
  { induction rs as [|[[[u p] t] now] rs IH]; intros users Hr Hnd; simpl; [done|].
    apply IH; [by apply register_registered | by apply register_NoDup]. }
  apply Hgen; [apply registered_init|].
  cbn. apply NoDup_cons. split; [|apply NoDup_singleton].
  intros H%list_elem_of_singleton. discriminate.
Qed.

(** X24: two registrations of one user name whose checks both run before
    either account is stored are both accepted: the list ends with two
    accounts of that name, with consecutive ids, and [login] for the
    name always finds the first of them. *)
Theorem register_overlap (sign : Z → Z → string → string → string)
    (hash : string → string) (users : list Account)
    (username p1 p2 t1 t2 : option string) (now1 now2 : Z) :
  registered sign hash users →
  register_check users username p1 = None →
  register_check users username p2 = None →
  let first := register_commit sign hash now1 users username p1 t1 in
  let second := register_commit sign hash now2 first.2 username p2 t2 in
  res_status first.1 = 201 ∧ res_status second.1 = 201 ∧
  registered sign hash second.2 ∧
  ¬ NoDup (acc_username <$> second.2) ∧
  ∃ a1 a2, second.2 = (users ++ [a1; a2])%list ∧
           Some (acc_username a1) = username ∧
           Some (acc_username a2) = username ∧
           acc_id a2 = acc_id a1 + 1 ∧
           find_user second.2 (acc_username a1) = Some a1.
Proof.
  intros Hr H1 H2 first second. subst first second.
  assert (Hr1 : registered sign hash
                  (register_commit sign hash now1 users username p1 t1).2)
    by (by apply (registered_commit sign hash now1 users users)).
  assert (Hr2 : registered sign hash
                  (register_commit sign hash now2
                     (register_commit sign hash now1 users username p1 t1).2
                     username p2 t2).2).
  { apply (registered_commit sign hash now2 users); [done|done| |done].
    unfold register_commit. cbn [snd]. by apply prefix_app_r. }
  apply register_check_None in H1 as (u & q1 & -> & Hu & -> & _ & Hf).
  unfold register_commit in *. cbn [fst snd res_status] in *.
  change (default "" (Some u)) with u in *.
  split; [done|]. split; [done|]. split; [exact Hr2|]. split.
  - rewrite <- (assoc_L (++)). rewrite fmap_app. cbn [fmap list_fmap acc_username].
    intros Hnd. apply NoDup_app in Hnd as (_ & _ & Hnd).
    apply NoDup_cons in Hnd as [Hnin _]. apply Hnin. by left.
  - eexists _, _. rewrite <- (assoc_L (++)). split; [reflexivity|].
    cbn [acc_username acc_id]. split; [done|]. split; [done|]. split.
    + rewrite length_app. simpl. lia.
    + rewrite (assoc_L (++)). apply find_user_app_l.
      by apply find_user_snoc.
Qed.

Lemma register_overlap_witness :
  let sign := (λ (now i : Z) (u t : string), u ++ "." ++ pretty now) in
  let hash := (λ p : string, "h:" ++ p) in
  let second := register_commit sign hash 9
                  (register_commit sign hash 8 demo_users (Some "carol")
                     (Some "pw") None).2 (Some "carol") (Some "other") None in
  (registered sign hash demo_users ∧
   register_check demo_users (Some "carol") (Some "pw") = None ∧
   register_check demo_users (Some "carol") (Some "other") = None) ∧
  res_status second.1 = 201 ∧ ¬ NoDup (acc_username <$> second.2).
Proof.
  intros sign hash second.
  assert (H0 : registered sign hash demo_users) by apply registered_init.
  assert (H1 : register_check demo_users (Some "carol") (Some "pw") = None)
    by reflexivity.
  assert (H2 : register_check demo_users (Some "carol") (Some "other") = None)
    by reflexivity.
  split; [by repeat split|].
  destruct (register_overlap sign hash demo_users (Some "carol") (Some "pw")
              (Some "other") None None 8 9 H0 H1 H2) as (_ & Hs & _ & Hd & _).
  split; [exact Hs | exact Hd].
Defined.

(** X21: [login] answers 400 exactly when the user name or the password
    is missing or empty, and 200 exactly when both are given, an account
    has that user name, and either [bcrypt.compare] accepts the password
    against the stored hash of the first account with that name (the
    one [users.find] returns) or the process runs in the test
    environment and the password is ["password123"]; the token and the
    body then carry the id, name and tier of that first account.  Every
    other request gets the one 401 answer, the same for an unknown user
    and a wrong password. *)
Theorem login_spec (sign : Z → Z → string → string → string)
    (compare : string → string → bool) (test_env : bool) (now : Z)
    (users : list Account) (username password : option string) :
  let res := login sign compare test_env now users username password in
  (res_status res = 400 ↔ missing username = true ∨ missing password = true) ∧
  (res_status res = 200 ↔
   ∃ u p a, username = Some u ∧ u ≠ "" ∧ password = Some p ∧ p ≠ "" ∧
            find_user users u = Some a ∧
            (compare p (acc_password a) = true ∨
             (test_env = true ∧ p = "password123"))) ∧
  (res_status res = 200 →
   ∃ u p a, username = Some u ∧ password = Some p ∧
            find_user users u = Some a ∧ acc_username a = u ∧
            (compare p (acc_password a) = true ∨
             (test_env = true ∧ p = "password123")) ∧
            res_body res =
              AuthBody "Login successful"
                (sign now (acc_id a) (acc_username a) (acc_type a))
                (acc_id a) (acc_username a) (acc_type a)) ∧
  (res_status res ≠ 400 → res_status res ≠ 200 → res = invalid_credentials).
Proof.
  intros res. subst res. unfold login.
  destruct (missing username || missing password) eqn:Hm.
  - apply orb_true_iff in Hm. cbn.
    split; [done|]. split; [|split; [discriminate | done]].
    split; [discriminate|].
    intros (u & p & a & -> & Hu & -> & Hp & _).
    destruct Hm as [Hm|Hm]; simpl in Hm; apply String.eqb_eq in Hm; done.
  - apply orb_false_iff in Hm as [Hu Hp].
    assert (Hnm : ¬ (missing username = true ∨ missing password = true))
      by (rewrite Hu, Hp; intros [?|?]; discriminate).
    apply missing_false in Hu as (u & -> & Hu).
    apply missing_false in Hp as (p & -> & Hp).
    change (default "" (Some u)) with u. change (default "" (Some p)) with p.
    destruct (find_user users u) as [a|] eqn:Hf.
    + destruct (find_user_Some users u a Hf) as [Hin Hname].
      destruct (compare p (acc_password a)) eqn:Hc; cbn [negb andb].
      * cbn. split; [split; [discriminate | done]|].
        split; [|split; [|done]].
        -- split; [|done]. intros _. exists u, p, a. repeat split; auto.
        -- intros _. exists u, p, a. repeat split; auto.
      * destruct test_env eqn:Ht; cbn [andb].
        -- destruct (String.eqb_spec p "password123") as [->|Hne]; cbn.
           ++ split; [split; [discriminate | done]|].
              split; [|split; [|done]].
              ** split; [|done]. intros _.
                 exists u, "password123", a. repeat split; auto.
              ** intros _. exists u, "password123", a. repeat split; auto.
           ++ split; [split; [discriminate | done]|].
              split; [|split; [discriminate | done]].
              split; [discriminate|].
              intros (u' & p' & a' & [= <-] & _ & [= <-] & _ & Hf' & [Hc'|[_ Hp']]);
                congruence.
        -- cbn. split; [split; [discriminate | done]|].
           split; [|split; [discriminate | done]].
           split; [discriminate|].
           intros (u' & p' & a' & [= <-] & _ & [= <-] & _ & Hf' & [Hc'|[Ht' _]]);
             congruence.
    + cbn. split; [split; [discriminate | done]|].
      split; [|split; [discriminate | done]].
      split; [discriminate|].
      intros (u' & p' & a' & [= <-] & _ & _ & _ & Hf' & _). congruence.
Qed.

Lemma login_spec_witness :
  let sign := (λ (now i : Z) (u t : string), u ++ "." ++ pretty now) in
  let res := login sign (λ _ _, false) true 5 demo_users (Some "freeuser")
               (Some "password123") in
  res_status res = 200 ∧
  ∃ u p a, Some "freeuser" = Some u ∧ Some "password123" = Some p ∧
           find_user demo_users u = Some a ∧ acc_username a = u ∧
           ((λ _ _ : string, false) p (acc_password a) = true ∨
            (true = true ∧ p = "password123")) ∧
           res_body res =
             AuthBody "Login successful"
               (sign 5 (acc_id a) (acc_username a) (acc_type a))
               (acc_id a) (acc_username a) (acc_type a).
Proof.
  intros sign res.
  assert (H : res_status res = 200) by reflexivity.
  split; [exact H|].
  destruct (login_spec sign (λ _ _, false) true 5 demo_users (Some "freeuser")
              (Some "password123")) as (_ & _ & Hbody & _).
  exact (Hbody H).
Defined.

(** X22: a registration that is accepted (201) with no other
    registration in between appends one account whose id is the old
    number of accounts plus one, and answers with that id, the name, the
    tier and a token signed for them at that time; the same user name
    can then log in with the same password, at any later clock value,
    whenever [bcrypt.compare] accepts that password against the hash
    that was stored, and gets the same id, name and tier with a token
    signed for them at login time; a second registration of the name is
    refused with 409 and changes nothing. *)
Theorem register_then_login (sign : Z → Z → string → string → string)
    (hash : string → string) (compare : string → string → bool)
    (test_env : bool) (now : Z) (users : list Account)
    (username password type : option string) :
  res_status (register sign hash now users username password type).1 = 201 →
  let users' := (register sign hash now users username password type).2 in
  ∃ u p a,
    username = Some u ∧ password = Some p ∧
    users' = (users ++ [a])%list ∧
    a = {| acc_id := Z.of_nat (length users) + 1; acc_username := u;
           acc_password := hash p; acc_type := account_type type |} ∧
    (register sign hash now users username password type).1 =
      {| res_status := 201;
         res_body := AuthBody "User registered successfully"
                       (sign now (acc_id a) u (acc_type a))
                       (acc_id a) u (acc_type a) |} ∧
    (compare p (hash p) = true →
     ∀ now',
       login sign compare test_env now' users' username password =
         {| res_status := 200;
            res_body := AuthBody "Login successful"
                          (sign now' (acc_id a) u (acc_type a))
                          (acc_id a) u (acc_type a) |}) ∧
    ∀ now' password' type',
      missing password' = false →
      res_status (register sign hash now' users' username password' type').1
        = 409 ∧
      (register sign hash now' users' username password' type').2 = users'.
Proof.
  unfold register.
  destruct (register_check users username password) as [res|] eqn:Hc.
  { unfold register_check in Hc.
    destruct (missing username || missing password); [by injection Hc as <-|].
    destruct (find_user _ _); [by injection Hc as <- | discriminate]. }
  apply register_check_None in Hc as (u & p & -> & Hu & -> & Hp & Hf).
  unfold register_commit.
  change (default "" (Some u)) with u. change (default "" (Some p)) with p.
  intros _. cbn [fst snd]. eexists u, p, _.
  split; [done|]. split; [done|]. split; [done|]. split; [done|].
  split; [done|].
  assert (Hu' : missing (Some u) = false) by (apply missing_false; by exists u).
  assert (Hp' : missing (Some p) = false) by (apply missing_false; by exists p).
  assert (Hfind : find_user
            (users ++ [{| acc_id := Z.of_nat (length users) + 1;
                          acc_username := u; acc_password := hash p;
                          acc_type := account_type type |}])%list u = Some
            {| acc_id := Z.of_nat (length users) + 1; acc_username := u;
               acc_password := hash p; acc_type := account_type type |})
    by by apply find_user_snoc.
  split.
  - intros Hcmp now'. unfold login. rewrite Hu', Hp'. cbn [orb].
    change (default "" (Some u)) with u. change (default "" (Some p)) with p.
    rewrite Hfind. cbn [acc_password]. by rewrite Hcmp.
  - intros now' password' type' Hp2. unfold register_check. rewrite Hu', Hp2.
    cbn [orb]. change (default "" (Some u)) with u. by rewrite Hfind.
Qed.

Lemma register_then_login_witness :
  let sign := (λ (now i : Z) (u t : string), u ++ "." ++ pretty now) in
  let hash := (λ p : string, "h:" ++ p) in
  let compare := (λ p h : string, String.eqb ("h:" ++ p) h) in
  res_status (register sign hash 10 demo_users (Some "carol") (Some "pw")
                (Some "admin")).1 = 201 ∧
  compare "pw" (hash "pw") = true ∧
  login sign compare false 20
    (register sign hash 10 demo_users (Some "carol") (Some "pw")
       (Some "admin")).2
    (Some "carol") (Some "pw") =
    {| res_status := 200;
       res_body := AuthBody "Login successful" "carol.20" 3 "carol" "free" |}.
Proof.
  intros sign hash compare.
  assert (H : res_status (register sign hash 10 demo_users (Some "carol")
                            (Some "pw") (Some "admin")).1 = 201)
    by reflexivity.
  assert (Hc : compare "pw" (hash "pw") = true) by reflexivity.
  split; [exact H|]. split; [exact Hc|].
  destruct (register_then_login sign hash compare false 10 demo_users
              (Some "carol") (Some "pw") (Some "admin") H)
    as (u & p & a & [= <-] & [= <-] & _ & -> & _ & Hlogin & _).
  exact (Hlogin Hc 20).
Defined.
